(** * tlser: keeping a Kubernetes TLS secret in sync

    A shallow embedding of [tlser.go] (package [main]): the command-line
    driver [main], the PEM file reader [readPem], the CA loader [readCa] and
    the Kubernetes adapter ([getSecret], [setSecret]).

    Go values are modelled as follows.
    - [string] is a sequence of bytes: [String.string]; [[]byte] is
      [list byte]; [string(bytes)] is [string_of_list_byte].
    - [int] and [time.Duration] are [Z] (no arithmetic is done on them here).
    - a [(T, error)] result is [result T]; a lone [error] is [option error].
    - the package-level flag variables are pointers ([*string]): they are the
      constructors of [Flag.t], dereferenced through the parsed flag values.
    - everything the program does to the outside world is recorded, in order,
      as a list of [event]s; [log.Fatalf] ends the process with status 1. *)

From Stdlib Require Import String Ascii List ZArith Lia Bool Arith.
From Stdlib Require Import DecimalString.
From Stdlib.Strings Require Import Byte.
Import ListNotations.
Local Open Scope string_scope.
Local Open Scope list_scope.

(** ** Values *)

Definition bytes := list byte.

(** The [*string] flag variables declared in the [var] block. *)
Module Flag.
Inductive t :=
| cacrt | cakey | subject | dns | ip | k8sName | k8sNs | interval.
End Flag.

(** Operands handed to [fmt.Errorf], [log.Printf] and [log.Fatalf], and Go
    [error] values.  [AStrPtr p] is the pointer [p] itself (which [%v]
    renders as an address), not the string it points to. *)
Inductive error :=
| ExtError (text : string)
| Errorf (format : string) (args : list fmtArg)
with fmtArg :=
| AString (s : string)
| AStrPtr (p : Flag.t)
| ABytes (b : bytes)
| ADuration (d : Z)
| AErr (e : error).

Inductive result (A : Type) :=
| Ok (a : A)
| Err (e : error).
Arguments Ok {A} a.
Arguments Err {A} e.

Definition is_err {A} (r : result A) : bool :=
  match r with Ok _ => false | Err _ => true end.

Record message := Msg { format : string; args : list fmtArg }.

(** The Go type [labels] is declared in another file of the package; the
    flag help text describes it as repeated [key=value] pairs.  It is named
    [labelMap] here because [labels] is also a field of [syncer]. *)
Definition labelMap := list (string * string).

Record identifier := { name : string; namespace : string }.

(** [secret] is the Kubernetes [corev1.Secret]; only the fields the package
    touches are kept. *)
Record secret := {
  Namespace : string;
  Name : string;
  Labels : labelMap;
  Data : list (string * bytes)
}.

(** The block returned by [pem.Decode]. *)
Record pemBlock := {
  Type_ : string;
  Headers : list (string * string);
  Bytes : bytes
}.

Definition namespaceFile : string :=
  "/var/run/secrets/kubernetes.io/serviceaccount/namespace".

(** [log.LstdFlags] is [Ldate | Ltime]. *)
Definition LstdFlags : Z := 3.

(** ** strings.Split with a one-byte separator

    [strings.Split(s, sep)] cuts [s] at every occurrence of [sep] and keeps
    every piece, empty ones included; on the empty string it returns one
    empty piece. *)
Fixpoint Split (s : string) (sep : ascii) : list string :=
  match s with
  | EmptyString => [EmptyString]
  | String c rest =>
      if Ascii.eqb c sep then EmptyString :: Split rest sep
      else match Split rest sep with
           | piece :: pieces => String c piece :: pieces
           | [] => [String c EmptyString]
           end
  end.

(** [strings.Join], the inverse used to state what [Split] computes. *)
Fixpoint Join (l : list string) (sep : ascii) : string :=
  match l with
  | [] => EmptyString
  | [piece] => piece
  | piece :: rest => piece ++ String sep (Join rest sep)
  end.

Fixpoint contains_byte (c : ascii) (s : string) : bool :=
  match s with
  | EmptyString => false
  | String c' rest => Ascii.eqb c' c || contains_byte c rest
  end.

(** A piece is free of the separator when the separator byte does not occur
    in it. *)
Definition sep_free (sep : ascii) (p : string) : Prop :=
  contains_byte sep p = false.

Fixpoint count_byte (c : ascii) (s : string) : nat :=
  match s with
  | EmptyString => 0
  | String c' rest => (if Ascii.eqb c' c then 1 else 0) + count_byte c rest
  end.

(** Lines 56-62 of [main]: a nil slice unless the option is non-empty. *)
Definition splitOption (opt : string) : list string :=
  if (0 <? String.length opt)%nat then Split opt "," else [].

(** ** The text of an error

    [err.Error()] for the errors above: [fmt.Errorf] puts the text of each
    operand in place of the verbs of the format, in order (the formats of
    this package use [%v], [%w] and [%s] only).  The address [%v] prints for
    a pointer and the text of a duration are left to the [printer]. *)
Record printer := {
  addr_text : Flag.t -> string;
  duration_text : Z -> string
}.

Definition decimal (b : byte) : string :=
  NilZero.string_of_uint (N.to_uint (Byte.to_N b)).

(** [%v] on a byte slice: its values in decimal, between brackets. *)
Definition bytes_text (b : bytes) : string :=
  ("[" ++ Join (map decimal b) " " ++ "]")%string.

Fixpoint Sprintf (format : string) (operands : list string) : string :=
  match format with
  | EmptyString => EmptyString
  | String c rest =>
      if Ascii.eqb c "%" then
        match rest with
        | EmptyString => "%!(NOVERB)"
        | String verb rest' =>
            match operands with
            | o :: operands' => o ++ Sprintf rest' operands'
            | [] => "%!" ++ String verb ("(MISSING)" ++ Sprintf rest' [])
            end
        end
      else String c (Sprintf rest operands)
  end.

Fixpoint Error (pr : printer) (e : error) : string :=
  match e with
  | ExtError text => text
  | Errorf format args => Sprintf format (map (operand_text pr) args)
  end
with operand_text (pr : printer) (a : fmtArg) : string :=
  match a with
  | AString s => s
  | AStrPtr p => addr_text pr p
  | ABytes b => bytes_text b
  | ADuration d => duration_text pr d
  | AErr e => Error pr e
  end.

(** [strings.Contains(s, sub)]. *)
Fixpoint is_substring (sub s : string) : bool :=
  String.prefix sub s ||
  match s with
  | EmptyString => false
  | String _ rest => is_substring sub rest
  end.

(** ** The Kubernetes client

    The API server behind the client is a state of type [apiserver]; each
    call of the secrets interface is answered by the server and recorded. *)
Inductive storeCall :=
| CallGet (ns nm : string)
| CallCreate (ns : string) (s : secret)
| CallUpdate (ns : string) (s : secret).

Section Client.
Variable apiserver : Type.

Definition K (A : Type) : Type := apiserver -> list storeCall * A * apiserver.

Definition kret {A} (a : A) : K A := fun st => ([], a, st).

Definition kbind {A B} (m : K A) (k : A -> K B) : K B :=
  fun st =>
    let '(c1, a, st1) := m st in
    let '(c2, b, st2) := k a st1 in
    (c1 ++ c2, b, st2).

(** What the server answers to each request of [CoreV1().Secrets(ns)]. *)
Record Clientset := {
  serveGet : string -> string -> apiserver -> result secret * apiserver;
  serveCreate : string -> secret -> apiserver -> result secret * apiserver;
  serveUpdate : string -> secret -> apiserver -> result secret * apiserver
}.

(** [SecretInterface], as returned by [clientset.CoreV1().Secrets(ns)]. *)
Record SecretInterface := {
  Get : string -> K (result secret);
  Create : secret -> K (result secret);
  Update : secret -> K (result secret)
}.

Definition Secrets (c : Clientset) (ns : string) : SecretInterface :=
  {| Get := fun nm st =>
       let '(r, st') := serveGet c ns nm st in ([CallGet ns nm], r, st');
     Create := fun s st =>
       let '(r, st') := serveCreate c ns s st in ([CallCreate ns s], r, st');
     Update := fun s st =>
       let '(r, st') := serveUpdate c ns s st in ([CallUpdate ns s], r, st') |}.

Record k8sAdapter := { clientset : Clientset }.

Definition err_of {A} (r : result A) : option error :=
  match r with Ok _ => None | Err e => Some e end.

(** [getSecret] asks the secrets interface of the identifier's namespace
    for the secret of that name and returns its answer as it is. *)
Definition getSecret (a : k8sAdapter) (id : identifier) : K (result secret) :=
  Get (Secrets (clientset a) (namespace id)) (name id).

(** [setSecret]: one request to the secrets interface of the secret's own
    namespace, [Update] or [Create] by the flag; the secret the server
    sends back is dropped and its error returned. *)
Definition setSecret (a : k8sAdapter) (s : secret) (update : bool)
  : K (option error) :=
  let secretI := Secrets (clientset a) (Namespace s) in
  if update then
    kbind (Update secretI s) (fun r => kret (err_of r))
  else
    kbind (Create secretI s) (fun r => kret (err_of r)).
End Client.

Arguments kret {apiserver A} a.
Arguments kbind {apiserver A B} m k.
Arguments serveGet {apiserver} c.
Arguments serveCreate {apiserver} c.
Arguments serveUpdate {apiserver} c.
Arguments Get {apiserver} s.
Arguments Create {apiserver} s.
Arguments Update {apiserver} s.
Arguments Secrets {apiserver} c ns.
Arguments clientset {apiserver} k.
Arguments Build_k8sAdapter {apiserver} clientset.
Arguments err_of {A} r.
Arguments getSecret {apiserver} a id.
Arguments setSecret {apiserver} a s update.

(** ** Effects of the driver

    One event per call that reaches outside the program.  [EvFatal] is the
    line written by [log.Fatalf]; [EvPrint] is [fmt.Print] on standard output
    with its operands (the certificate and key texts returned by
    [generateSignedCert]); [EvSync n r] is the whole of the [n]-th call of
    [syncer.sync], store requests included, with the error it returned. *)

Inductive event :=
| EvLogSetFlags (flags : Z)
| EvLog (m : message)
| EvFatal (m : message)
| EvReadFile (path : string)
| EvGenerateKey (bits : Z)
| EvGenerateSignedCert (cn : string) (ips dnss : list string) (days : Z)
| EvPrint (operands : list string)
| EvGetConfig
| EvNewForConfig
| EvSync (n : nat) (r : option error)
| EvSleep (d : Z).

(** How a computation ends: with a value, by leaving the process
    ([log.Fatalf] calls [os.Exit(1)]), or not yet (the polling loop never
    returns; [Unfinished] marks a run observed for a bounded number of
    iterations). *)
Inductive outcome (A : Type) :=
| Value (a : A)
| Exited (status : Z)
| Unfinished.
Arguments Value {A} a.
Arguments Exited {A} status.
Arguments Unfinished {A}.

Definition prog (A : Type) : Type := list event * outcome A.

Definition ret {A} (a : A) : prog A := ([], Value a).

Definition bind {A B} (m : prog A) (k : A -> prog B) : prog B :=
  match m with
  | (t, Value a) => let (t', r) := k a in (t ++ t', r)
  | (t, Exited c) => (t, Exited c)
  | (t, Unfinished) => (t, Unfinished)
  end.

Declare Scope prog_scope.
Delimit Scope prog_scope with prog.
Notation "x <- m ;; k" := (bind m (fun x => k))
  (at level 61, m at next level, right associativity) : prog_scope.
Notation "m ;; k" := (bind m (fun _ => k))
  (at level 61, right associativity) : prog_scope.
Local Open Scope prog_scope.

Definition emit (e : event) : prog unit := ([e], Value tt).

Definition log_SetFlags (flags : Z) : prog unit := emit (EvLogSetFlags flags).
Definition log_Print (text : string) : prog unit := emit (EvLog (Msg text [])).
Definition log_Printf (fmt : string) (a : list fmtArg) : prog unit :=
  emit (EvLog (Msg fmt a)).
Definition log_Fatalf {A} (fmt : string) (a : list fmtArg) : prog A :=
  ([EvFatal (Msg fmt a)], Exited 1).
Definition fmt_Print (operands : list string) : prog unit :=
  emit (EvPrint operands).
Definition time_Sleep (d : Z) : prog unit := emit (EvSleep d).

(** The parsed command line: the value behind each [*string] flag, and the
    two flags of other types. *)
Record flagvals := {
  str : Flag.t -> string;
  expire : Z;
  label : labelMap
}.

Definition deref (fl : flagvals) (p : Flag.t) : string := str fl p.

Section Driver.
(** Types of the package and of its libraries that this file only passes
    around: the CA signer [certificate], [*rsa.PrivateKey], [*rest.Config]
    and the state of the API server. *)
Variables certificate rsaKey restConfig apiserver : Type.

(** The [syncer] literal built by [main]; its [getSigner] closure is the
    computation it would run. *)
Record syncer := {
  secrets : k8sAdapter apiserver;
  id : identifier;
  subject : string;
  ip : list string;
  dns : list string;
  daysValid : Z;
  labels : labelMap;
  getSigner : prog (result certificate)
}.

(** The world the driver runs in: the file system, the Go libraries it
    calls and the functions of the package that live in other files
    ([parseCertPair], [generateSignedCert], [syncer.sync]).  The [n]-th
    call of [sync] answers [syncer_sync s n]. *)
Record World := {
  ioutil_ReadFile : string -> result bytes;
  pem_Decode : bytes -> option pemBlock * bytes;
  parseCertPair : bytes -> bytes -> result certificate;
  rsa_GenerateKey : Z -> result rsaKey;
  generateSignedCert :
    string -> list string -> list string -> Z -> rsaKey -> certificate ->
    result (string * string);
  time_ParseDuration : string -> result Z;
  config_GetConfig : result restConfig;
  kubernetes_NewForConfig : restConfig -> result (Clientset apiserver);
  syncer_sync : syncer -> nat -> option error
}.

Variable w : World.

Definition ReadFile (file : string) : prog (result bytes) :=
  emit (EvReadFile file) ;; ret (ioutil_ReadFile w file).

(** [func readPem(file string) ([]byte, error)].  The operand of the first
    [Errorf] is the package-level flag pointer [cacrt], as in the source. *)
Definition readPem (file : string) : prog (result bytes) :=
  r <- ReadFile file ;;
  match r with
  | Err err =>
      ret (Err (Errorf "unable to read %v: %w" [AStrPtr Flag.cacrt; AErr err]))
  | Ok bytes =>
      match fst (pem_Decode w bytes) with
      | None => ret (Err (Errorf "unable to decode: %v" [ABytes bytes]))
      | Some decoded => ret (Ok (Bytes decoded))
      end
  end.

(** [func readCa(cacrt, cakey string) (certificate, error)] *)
Definition readCa (cacrt cakey : string) : prog (result certificate) :=
  r1 <- readPem cacrt ;;
  match r1 with
  | Err err => ret (Err err)
  | Ok certBytes =>
      r2 <- readPem cakey ;;
      match r2 with
      | Err err => ret (Err err)
      | Ok keyBytes => ret (parseCertPair w certBytes keyBytes)
      end
  end.

(** Lines 104-114 of [main]. *)
Definition resolveNamespace (flagNs : string) : prog string :=
  namespace <-
    (if String.eqb flagNs "" then
       r <- ReadFile namespaceFile ;;
       match r with
       | Err _ =>
           log_Printf "Unable to read %s, using namespace 'default'"
                      [AString namespaceFile] ;;
           ret flagNs
       | Ok bytes => ret (string_of_list_byte bytes)
       end
     else ret flagNs) ;;
  ret (if String.eqb namespace "" then "default" else namespace).

Definition sync (s : syncer) (n : nat) : prog (option error) :=
  let r := syncer_sync w s n in
  emit (EvSync n r) ;; ret r.

(** Lines 129-132 of [main]: the single cycle of one-shot mode. *)
Definition syncOnce (s : syncer) : prog unit :=
  r <- sync s 0 ;;
  match r with
  | Some err => log_Fatalf "Unable to sync certs: %v" [AErr err]
  | None => ret tt
  end.

(** Lines 138-143 of [main]: the [for] loop, observed for [fuel]
    iterations; [n] counts the cycles already run. *)
Fixpoint poll (s : syncer) (syncInterval : Z) (fuel n : nat) : prog unit :=
  match fuel with
  | O => ([], Unfinished)
  | S fuel' =>
      r <- sync s n ;;
      match r with
      | Some err => log_Fatalf "Unable to sync certs: %v" [AErr err]
      | None =>
          time_Sleep syncInterval ;;
          poll s syncInterval fuel' (S n)
      end
  end.

(** [func main()], after [flag.Parse] has produced [fl]. *)
Definition main (fl : flagvals) (fuel : nat) : prog unit :=
  log_SetFlags 0 ;;
  if (String.length (deref fl Flag.subject) =? 0)%nat then
    log_Fatalf "Missing required -subject parameter" []
  else
    syncInterval <-
      (if negb (String.length (deref fl Flag.interval) =? 0)%nat then
         match time_ParseDuration w (deref fl Flag.interval) with
         | Err err =>
             log_Fatalf "Parameter -interval was not a valid duration: %v"
                        [AErr err]
         | Ok d => ret d
         end
       else ret 0%Z) ;;
    let ipStrings := splitOption (deref fl Flag.ip) in
    let dnsStrings := splitOption (deref fl Flag.dns) in
    if (String.length (deref fl Flag.k8sName) =? 0)%nat then
      log_Print "No secret name provided, generating cert on stdout" ;;
      r <- readCa (deref fl Flag.cacrt) (deref fl Flag.cakey) ;;
      match r with
      | Err err => log_Fatalf "Failed to read CA files: %v" [AErr err]
      | Ok signer =>
          emit (EvGenerateKey 2048) ;;
          match rsa_GenerateKey w 2048 with
          | Err err =>
              log_Fatalf "Unable to generate private key: %v" [AErr err]
          | Ok rsaKey =>
              emit (EvGenerateSignedCert (deref fl Flag.subject)
                      ipStrings dnsStrings (expire fl)) ;;
              match generateSignedCert w (deref fl Flag.subject)
                      ipStrings dnsStrings (expire fl) rsaKey signer with
              | Err err =>
                  log_Fatalf "Unable to generate certificate: %v" [AErr err]
              | Ok (cert, key) => fmt_Print [cert; key]
              end
          end
      end
    else
      emit EvGetConfig ;;
      match config_GetConfig w with
      | Err err => log_Fatalf "Unable to get Kubernetes config: %v" [AErr err]
      | Ok cfg =>
          emit EvNewForConfig ;;
          match kubernetes_NewForConfig w cfg with
          | Err err =>
              log_Fatalf "Unable to initialize Kubernetes client: %v"
                         [AErr err]
          | Ok clientset =>
              namespace <- resolveNamespace (deref fl Flag.k8sNs) ;;
              log_Printf
                "Syncing certificate for %s to secret %s in namespace %s"
                [AString (deref fl Flag.subject);
                 AString (deref fl Flag.k8sName);
                 AString namespace] ;;
              let sync_ := {|
                secrets := Build_k8sAdapter clientset;
                id := {| name := deref fl Flag.k8sName;
                         namespace := namespace |};
                subject := deref fl Flag.subject;
                ip := ipStrings;
                dns := dnsStrings;
                daysValid := expire fl;
                labels := label fl;
                getSigner :=
                  readCa (deref fl Flag.cacrt) (deref fl Flag.cakey) |} in
              if (syncInterval =? 0)%Z then
                syncOnce sync_
              else
                log_Printf "Monitoring every %v" [ADuration syncInterval] ;;
                log_SetFlags LstdFlags ;;
                poll sync_ syncInterval fuel 0
          end
      end.
End Driver.

Arguments secrets {certificate apiserver} s.
Arguments id {certificate apiserver} s.
Arguments subject {certificate apiserver} s.
Arguments ip {certificate apiserver} s.
Arguments dns {certificate apiserver} s.
Arguments daysValid {certificate apiserver} s.
Arguments labels {certificate apiserver} s.
Arguments getSigner {certificate apiserver} s.
Arguments ioutil_ReadFile {certificate rsaKey restConfig apiserver} w.
Arguments pem_Decode {certificate rsaKey restConfig apiserver} w.
Arguments parseCertPair {certificate rsaKey restConfig apiserver} w.
Arguments rsa_GenerateKey {certificate rsaKey restConfig apiserver} w.
Arguments generateSignedCert {certificate rsaKey restConfig apiserver} w.
Arguments time_ParseDuration {certificate rsaKey restConfig apiserver} w.
Arguments config_GetConfig {certificate rsaKey restConfig apiserver} w.
Arguments kubernetes_NewForConfig {certificate rsaKey restConfig apiserver} w.
Arguments syncer_sync {certificate rsaKey restConfig apiserver} w.
Arguments ReadFile {certificate rsaKey restConfig apiserver} w file.
Arguments readPem {certificate rsaKey restConfig apiserver} w file.
Arguments readCa {certificate rsaKey restConfig apiserver} w cacrt cakey.
Arguments resolveNamespace {certificate rsaKey restConfig apiserver} w flagNs.
Arguments sync {certificate rsaKey restConfig apiserver} w s n.
Arguments syncOnce {certificate rsaKey restConfig apiserver} w s.
Arguments poll {certificate rsaKey restConfig apiserver}
  w s syncInterval fuel n.
Arguments main {certificate rsaKey restConfig apiserver} w fl fuel.

(** ** Reading traces *)

Definition is_sync (e : event) : bool :=
  match e with EvSync _ _ => true | _ => false end.

(** Events that set up or use the credential store: building the client
    and running a reconciliation cycle (the only caller of the adapter). *)
Definition is_store_event (e : event) : bool :=
  match e with
  | EvGetConfig | EvNewForConfig | EvSync _ _ => true
  | _ => false
  end.

(** What [main] logs once the client is built and the namespace resolved. *)
Definition syncing_line (fl : flagvals) (ns : string) : event :=
  EvLog (Msg "Syncing certificate for %s to secret %s in namespace %s"
             [AString (deref fl Flag.subject);
              AString (deref fl Flag.k8sName);
              AString ns]).

(** What [main] logs before exiting when a cycle fails. *)
Definition fatal_sync (err : error) : event :=
  EvFatal (Msg "Unable to sync certs: %v" [AErr err]).

(** How the [-interval] option resolves to [syncInterval]: zero when the
    option is absent, the parsed duration otherwise. *)
Definition interval_is {certificate rsaKey restConfig apiserver : Type}
  (w : World certificate rsaKey restConfig apiserver)
  (fl : flagvals) (d : Z) : Prop :=
  (deref fl Flag.interval = "" /\ d = 0%Z) \/
  (deref fl Flag.interval <> "" /\
   time_ParseDuration w (deref fl Flag.interval) = Ok d).

(** Events of the reconciliation loop proper: a cycle or a sleep. *)
Definition is_cycle_event (e : event) : bool :=
  match e with EvSync _ _ | EvSleep _ => true | _ => false end.

(** A trace is quiet when it holds no event of the loop. *)
Local Abbreviation quiet := (Forall (fun e => is_cycle_event e = false)).

(** One successful iteration of the polling loop. *)
Local Abbreviation paced d := (fun i : nat => [EvSync i None; EvSleep d]).

Definition sync_count (t : list event) : nat := length (filter is_sync t).

(** The whole of a successful run without a secret name. *)
Definition printed (fl : flagvals) (cert key : string) : list event :=
  [EvLogSetFlags 0;
   EvLog (Msg "No secret name provided, generating cert on stdout" []);
   EvReadFile (deref fl Flag.cacrt);
   EvReadFile (deref fl Flag.cakey);
   EvGenerateKey 2048;
   EvGenerateSignedCert (deref fl Flag.subject)
     (splitOption (deref fl Flag.ip)) (splitOption (deref fl Flag.dns))
     (expire fl);
   EvPrint [cert; key]].

(** A run shows the polling loop when it has not ended within the observed
    iterations, or has slept, or has run more than one cycle. *)
Definition entered_loop (p : prog unit) : Prop :=
  snd p = Unfinished \/
  (exists d, In (EvSleep d) (fst p)) \/
  1 < sync_count (fst p).

(** Work that [main] does itself only when no secret name is given, and
    that otherwise happens, if at all, inside a cycle: reading a file other
    than the namespace file, generating a key or a certificate, printing. *)
Definition left_to_the_cycles (e : event) : bool :=
  match e with
  | EvReadFile path => negb (String.eqb path namespaceFile)
  | EvGenerateKey _ | EvGenerateSignedCert _ _ _ _ | EvPrint _ => true
  | _ => false
  end.

Definition is_read (e : event) : bool :=
  match e with EvReadFile _ => true | _ => false end.

(** What every event of a run with a secret name satisfies: it is none of
    the work left to the cycles, and it is a file read only when the
    [-namespace] flag is empty. *)
Local Abbreviation own_work fl :=
  (fun e : event =>
     left_to_the_cycles e = false /\
     (is_read e = true -> deref fl Flag.k8sNs = "")).

(** A logical clock: cycle [n] takes [cost n], a sleep takes the duration it
    was asked for, everything else takes no time. *)
Definition duration_of (cost : nat -> Z) (e : event) : Z :=
  match e with
  | EvSync n _ => cost n
  | EvSleep d => d
  | _ => 0%Z
  end.

Definition elapsed (cost : nat -> Z) (t : list event) : Z :=
  fold_right (fun e acc => (duration_of cost e + acc)%Z) 0%Z t.

(** ** A small concrete world, used to run the definitions

    Two CA files and the namespace file exist; a file "decodes" when it
    starts with a dash; the store is a list of secrets; durations are the
    three strings below; the third reconciliation cycle fails. *)
Module Demo.
Definition certificate : Type := bytes * bytes.
Definition rsaKey : Type := Z.
Definition restConfig : Type := unit.
Definition apiserver : Type := list secret.

Definition same_secret (ns nm : string) (s : secret) : bool :=
  String.eqb (Namespace s) ns && String.eqb (Name s) nm.

Definition store : Clientset apiserver :=
  {| serveGet := fun ns nm st =>
       match find (same_secret ns nm) st with
       | Some s => (Ok s, st)
       | None => (Err (ExtError "not found"), st)
       end;
     serveCreate := fun ns s st =>
       match find (same_secret ns (Name s)) st with
       | Some _ => (Err (ExtError "already exists"), st)
       | None => (Ok s, s :: st)
       end;
     serveUpdate := fun ns s st =>
       match find (same_secret ns (Name s)) st with
       | Some _ =>
           (Ok s, s :: filter (fun x => negb (same_secret ns (Name s) x)) st)
       | None => (Err (ExtError "not found"), st)
       end |}.

Definition files (path : string) : result bytes :=
  if String.eqb path "./ca.pem" then Ok (list_byte_of_string "-CERT")
  else if String.eqb path "./ca-key.pem" then Ok (list_byte_of_string "-KEY")
  else if String.eqb path "./garbage.pem" then Ok (list_byte_of_string "junk")
  else if String.eqb path namespaceFile then Ok (list_byte_of_string "prod")
  else
    Err (ExtError ("open " ++ path ++ ": no such file or directory")%string).

Definition decode (b : bytes) : option pemBlock * bytes :=
  match b with
  | x2d :: body =>
      (Some {| Type_ := "CERTIFICATE"; Headers := []; Bytes := body |}, [])
  | _ => (None, b)
  end.

Definition durations (s : string) : result Z :=
  if String.eqb s "1h" then Ok 3600000000000%Z
  else if String.eqb s "30m" then Ok 1800000000000%Z
  else if String.eqb s "0s" then Ok 0%Z
  else Err (ExtError "time: invalid duration").

Definition world : World certificate rsaKey restConfig apiserver :=
  {| ioutil_ReadFile := files;
     pem_Decode := decode;
     parseCertPair := fun c k => Ok (c, k);
     rsa_GenerateKey := fun bits => Ok bits;
     generateSignedCert := fun cn ips dnss days key ca =>
       Ok (("CERT for " ++ cn)%string, "KEY");
     time_ParseDuration := durations;
     config_GetConfig := Ok tt;
     kubernetes_NewForConfig := fun _ => Ok store;
     syncer_sync := fun _ n =>
       if (n <? 2)%nat then None else Some (ExtError "store unavailable") |}.

(** [-subject svc.example.com] and the flag defaults, then variations. *)
Definition flags_of (subj nm ns every : string) : flagvals :=
  {| str := fun p =>
       match p with
       | Flag.cacrt => "./ca.pem"
       | Flag.cakey => "./ca-key.pem"
       | Flag.subject => subj
       | Flag.dns => "a.example.com,b.example.com"
       | Flag.ip => ""
       | Flag.k8sName => nm
       | Flag.k8sNs => ns
       | Flag.interval => every
       end;
     expire := 60;
     label := [] |}.

Definition no_subject : flagvals := flags_of "" "tls" "" "".
Definition no_target : flagvals := flags_of "svc.example.com" "" "" "1h".
Definition one_shot : flagvals := flags_of "svc.example.com" "tls" "" "".
Definition hourly : flagvals := flags_of "svc.example.com" "tls" "kube" "1h".

(** What [readPem] returns for a key file that does not exist. *)
Definition missing_key_error : error :=
  Errorf "unable to read %v: %w"
    [AStrPtr Flag.cacrt;
     AErr (ExtError "open ./missing-key.pem: no such file or directory")].

(** The same world with another answer from the cluster set-up. *)
Definition world_with (cfg : result restConfig)
  (client : restConfig -> result (Clientset apiserver))
  : World certificate rsaKey restConfig apiserver :=
  {| ioutil_ReadFile := files;
     pem_Decode := decode;
     parseCertPair := fun c k => Ok (c, k);
     rsa_GenerateKey := fun bits => Ok bits;
     generateSignedCert := fun cn ips dnss days key ca =>
       Ok (("CERT for " ++ cn)%string, "KEY");
     time_ParseDuration := durations;
     config_GetConfig := cfg;
     kubernetes_NewForConfig := client;
     syncer_sync := fun _ n =>
       if (n <? 2)%nat then None else Some (ExtError "store unavailable") |}.

Definition no_kubeconfig : World certificate rsaKey restConfig apiserver :=
  world_with (Err (ExtError "no kubeconfig")) (fun _ => Ok store).

Definition no_client : World certificate rsaKey restConfig apiserver :=
  world_with (Ok tt) (fun _ => Err (ExtError "bad host")).

Definition bad_interval : flagvals := flags_of "svc.example.com" "" "" "soon".
Definition zero_interval : flagvals :=
  flags_of "svc.example.com" "tls" "kube" "0s".

(** As [no_target], with a key file that holds no PEM block. *)
Definition bad_key : flagvals :=
  {| str := fun p =>
       match p with
       | Flag.cakey => "./garbage.pem"
       | _ => str no_target p
       end;
     expire := 60;
     label := [] |}.

Definition a_secret : secret :=
  {| Namespace := "prod"; Name := "tls"; Labels := [];
     Data := [("tls.crt", list_byte_of_string "CERT");
              ("tls.key", list_byte_of_string "KEY")] |}.
End Demo.

(** * Properties *)

(** ** Splitting the SAN options *)

Section SplitFacts.
Variable sep : ascii.

Lemma Split_not_nil (s : string) : Split s sep <> [].
Proof.
  destruct s as [|c rest]; simpl; [discriminate|].
  destruct (Ascii.eqb c sep); [discriminate|].
  destruct (Split rest sep); discriminate.
Qed.

Lemma Join_cons (p : string) (l : list string) :
  l <> [] -> Join (p :: l) sep = (p ++ String sep (Join l sep))%string.
Proof. destruct l; [congruence | reflexivity]. Qed.

Lemma Join_Split (s : string) : Join (Split s sep) sep = s.
Proof.
  induction s as [|c rest IH]; [reflexivity|].
  cbn [Split]. destruct (Ascii.eqb_spec c sep) as [->|Hne].
  - rewrite Join_cons by apply Split_not_nil. now rewrite IH.
  - destruct (Split rest sep) as [|p ps] eqn:E.
    + now apply Split_not_nil in E.
    + destruct ps as [|q qs]; cbn in IH |- *; now rewrite <- IH.
Qed.

Lemma Split_pieces_sep_free (s : string) : Forall (sep_free sep) (Split s sep).
Proof.
  induction s as [|c rest IH]; cbn [Split].
  - repeat constructor.
  - destruct (Ascii.eqb c sep) eqn:E.
    + constructor; [reflexivity | exact IH].
    + destruct (Split rest sep) as [|p ps].
      * constructor; [|constructor]. unfold sep_free. cbn. now rewrite E.
      * inversion IH as [|? ? Hp Hps]; subst. constructor; [|exact Hps].
        unfold sep_free in *. cbn. now rewrite E.
Qed.

Lemma Split_length (s : string) :
  length (Split s sep) = S (count_byte sep s).
Proof.
  induction s as [|c rest IH]; [reflexivity|].
  cbn [Split count_byte]. destruct (Ascii.eqb c sep).
  - cbn. now rewrite IH.
  - destruct (Split rest sep) as [|p ps]; cbn in *; lia.
Qed.

Lemma Split_sep_free (p : string) : sep_free sep p -> Split p sep = [p].
Proof.
  unfold sep_free. induction p as [|c rest IH]; [reflexivity|].
  cbn. destruct (Ascii.eqb c sep); [discriminate|].
  cbn. intros H. now rewrite (IH H).
Qed.

Lemma Split_app_sep (p t : string) :
  sep_free sep p -> Split (p ++ String sep t) sep = p :: Split t sep.
Proof.
  unfold sep_free. induction p as [|c rest IH]; cbn.
  - now rewrite Ascii.eqb_refl.
  - destruct (Ascii.eqb c sep); [discriminate|].
    cbn. intros H. now rewrite (IH H).
Qed.

Lemma Split_Join (l : list string) :
  l <> [] -> Forall (sep_free sep) l -> Split (Join l sep) sep = l.
Proof.
  induction l as [|p l IH]; [congruence|].
  intros _ Hall. inversion Hall as [|? ? Hp Hl]; subst.
  destruct l as [|q l'].
  - now apply Split_sep_free.
  - rewrite Join_cons by discriminate.
    rewrite Split_app_sep by exact Hp.
    now rewrite IH by (discriminate || exact Hl).
Qed.
End SplitFacts.

Lemma splitOption_nonempty (s : string) :
  s <> "" -> splitOption s = Split s ",".
Proof. destruct s; [congruence | reflexivity]. Qed.

(** C10. An empty DNS or IP option gives the empty list, not a list holding
    one empty name; a non-empty option [s] gives [Split s ","], which is the
    one way to cut [s] into comma-free pieces that joined by commas give [s]
    back: pieces are neither trimmed nor dropped, so there is one more piece
    than there are commas and "a,,b" gives three pieces, the middle one
    empty. *)
Theorem splitOption_splits_on_commas_exactly :
  splitOption "" = [] /\
  (forall s, splitOption s = [] <-> s = "") /\
  (forall s, s <> "" -> splitOption s = Split s ",") /\
  (forall s, s <> "" -> Join (splitOption s) "," = s) /\
  (forall s, Forall (sep_free ",") (splitOption s)) /\
  (forall s, s <> "" -> length (splitOption s) = S (count_byte "," s)) /\
  (forall l, l <> [] -> l <> [""] ->
     Forall (sep_free ",") l ->
     splitOption (Join l ",") = l) /\
  splitOption "a,,b" = ["a"; ""; "b"] /\
  splitOption " a, b " = [" a"; " b "] /\
  splitOption "," = [""; ""].
Proof.
  repeat split; try reflexivity.
  - destruct s; [reflexivity|]. intros H.
    now apply Split_not_nil in H.
  - now intros ->.
  - apply splitOption_nonempty.
  - intros s H. rewrite splitOption_nonempty by exact H. apply Join_Split.
  - intros s. destruct s; [constructor|]. apply Split_pieces_sep_free.
  - intros s H. rewrite splitOption_nonempty by exact H. apply Split_length.
  - intros l Hnil Hone Hall. rewrite splitOption_nonempty.
    + now apply Split_Join.
    + destruct l as [|p [|q l']]; [congruence| |].
      * cbn. congruence.
      * rewrite Join_cons by discriminate. destruct p; discriminate.
Qed.

(** ** The Kubernetes adapter *)

(** C2. [setSecret] sends the server one request: [Update] when the flag
    says the secret existed, [Create] when it says it did not, never both;
    and the error it returns (with the state it leaves the server in) is the
    one that request produced. *)
Theorem setSecret_update_or_create
  (apiserver : Type) (a : k8sAdapter apiserver) (s : secret) (update : bool)
  (st : apiserver) :
  let '(calls, err, st') := setSecret a s update st in
  let '(answer, st1) :=
    if update then serveUpdate (clientset a) (Namespace s) s st
    else serveCreate (clientset a) (Namespace s) s st in
  calls = [if update then CallUpdate (Namespace s) s
           else CallCreate (Namespace s) s] /\
  err = err_of answer /\
  st' = st1.
Proof.
  unfold setSecret, kbind, kret. destruct update; cbn.
  - destruct (serveUpdate (clientset a) (Namespace s) s st) as [r st1].
    cbn. auto.
  - destruct (serveCreate (clientset a) (Namespace s) s st) as [r st1].
    cbn. auto.
Qed.

(** On the list-backed store: creating an absent secret succeeds, creating
    it again fails, updating it succeeds, and updating an absent one fails. *)
Example setSecret_on_demo_store :
  let a := Build_k8sAdapter Demo.store in
  setSecret a Demo.a_secret false [] =
    ([CallCreate "prod" Demo.a_secret], None, [Demo.a_secret]) /\
  setSecret a Demo.a_secret false [Demo.a_secret] =
    ([CallCreate "prod" Demo.a_secret], Some (ExtError "already exists"),
     [Demo.a_secret]) /\
  setSecret a Demo.a_secret true [Demo.a_secret] =
    ([CallUpdate "prod" Demo.a_secret], None, [Demo.a_secret]) /\
  setSecret a Demo.a_secret true [] =
    ([CallUpdate "prod" Demo.a_secret], Some (ExtError "not found"), []).
Proof. repeat split. Qed.

(** ** Reading PEM files *)

Lemma append_empty_r (s : string) : (s ++ "")%string = s.
Proof. induction s as [|c s IH]; [reflexivity|]. cbn. now rewrite IH. Qed.

Section ReaderFacts.
Variables certificate rsaKey restConfig apiserver : Type.
Variable w : World certificate rsaKey restConfig apiserver.

Lemma readPem_unreadable (file : string) (err : error) :
  ioutil_ReadFile w file = Err err ->
  readPem w file =
    ([EvReadFile file],
     Value (Err (Errorf "unable to read %v: %w"
                        [AStrPtr Flag.cacrt; AErr err]))).
Proof. intros H. unfold readPem, ReadFile. cbn. now rewrite H. Qed.

Lemma readPem_undecodable (file : string) (b : bytes) :
  ioutil_ReadFile w file = Ok b ->
  fst (pem_Decode w b) = None ->
  readPem w file =
    ([EvReadFile file],
     Value (Err (Errorf "unable to decode: %v" [ABytes b]))).
Proof. intros H D. unfold readPem, ReadFile. cbn. now rewrite H, D. Qed.

Lemma readPem_decoded (file : string) (b : bytes) (blk : pemBlock) :
  ioutil_ReadFile w file = Ok b ->
  fst (pem_Decode w b) = Some blk ->
  readPem w file = ([EvReadFile file], Value (Ok (Bytes blk))).
Proof. intros H D. unfold readPem, ReadFile. cbn. now rewrite H, D. Qed.

(** C3. [readPem] reads the file it is given, once, and returns; what it
    returns is an error exactly when the file is unreadable or
    [pem.Decode] finds no block in its contents, and otherwise the bytes of
    the first block [pem.Decode] found. *)
Theorem readPem_error_iff_unreadable_or_no_block (file : string) :
  exists r : result bytes,
    readPem w file = ([EvReadFile file], Value r) /\
    (is_err r = true <->
       is_err (ioutil_ReadFile w file) = true \/
       exists b, ioutil_ReadFile w file = Ok b /\
                 fst (pem_Decode w b) = None) /\
    (forall b blk,
       ioutil_ReadFile w file = Ok b ->
       fst (pem_Decode w b) = Some blk ->
       r = Ok (Bytes blk)).
Proof.
  destruct (ioutil_ReadFile w file) as [b|err] eqn:H.
  - destruct (fst (pem_Decode w b)) as [blk|] eqn:D.
    + exists (Ok (Bytes blk)).
      split; [exact (readPem_decoded file b blk H D)|]. split.
      * split; [discriminate|].
        intros [F|[b' [E D']]]; [discriminate|].
        injection E as <-. congruence.
      * intros b' blk' E D'. injection E as <-. congruence.
    + eexists. split; [exact (readPem_undecodable file b H D)|]. split.
      * split; [|reflexivity]. intros _. right. now exists b.
      * intros b' blk' E D'. injection E as <-. congruence.
  - eexists. split; [exact (readPem_unreadable file err H)|]. split.
    + split; [|reflexivity]. intros _. now left.
    + discriminate.
Qed.

(** C7. Every error [readPem] returns says which operation failed and
    carries what it failed on.  When the read fails, the text is "unable to
    read ", one operand, ": " and the text of the read error, which is
    wrapped unchanged.  When the decode fails, the text is "unable to
    decode: " and the bytes of the file; that error does not name the
    file. *)
Theorem readPem_errors_carry_operation_and_material
  (file : string) (e : error) :
  snd (readPem w file) = Value (Err e) ->
  (exists a cause,
     ioutil_ReadFile w file = Err cause /\
     e = Errorf "unable to read %v: %w" [a; AErr cause] /\
     forall pr,
       Error pr e =
         ("unable to read " ++ operand_text pr a ++ ": " ++ Error pr cause)
         %string) \/
  (exists b,
     ioutil_ReadFile w file = Ok b /\
     fst (pem_Decode w b) = None /\
     e = Errorf "unable to decode: %v" [ABytes b] /\
     forall pr, Error pr e = ("unable to decode: " ++ bytes_text b)%string).
Proof.
  destruct (ioutil_ReadFile w file) as [b|cause] eqn:H.
  - destruct (fst (pem_Decode w b)) as [blk|] eqn:D.
    + rewrite (readPem_decoded file b blk H D). discriminate.
    + rewrite (readPem_undecodable file b H D). cbn [snd].
      intros E. injection E as <-. right. exists b.
      repeat split; try assumption.
      intros pr. cbn. now rewrite append_empty_r.
  - rewrite (readPem_unreadable file cause H). cbn [snd].
    intros E. injection E as <-. left. exists (AStrPtr Flag.cacrt), cause.
    repeat split.
    intros pr. cbn. now rewrite !append_empty_r.
Qed.
End ReaderFacts.

(** The two errors of [readPem] on the concrete world.  The failed read of
    [./missing-key.pem] is reported through the pointer to the [-cacert] flag
    variable; the path shows only inside the wrapped read error.  The failed
    decode of [./garbage.pem] reads "unable to decode: [106 117 110 107]". *)
Example readPem_error_texts (pr : printer) :
  (exists e,
     snd (readPem Demo.world "./missing-key.pem") = Value (Err e) /\
     Error pr e =
       ("unable to read " ++ addr_text pr Flag.cacrt ++
        ": open ./missing-key.pem: no such file or directory")%string) /\
  (exists e,
     snd (readPem Demo.world "./garbage.pem") = Value (Err e) /\
     Error pr e = "unable to decode: [106 117 110 107]").
Proof.
  split; eexists; (split; [reflexivity|]); reflexivity.
Qed.

(** ** The driver *)

Lemma length_zero_false (s : string) :
  s <> "" -> (String.length s =? 0)%nat = false.
Proof. destruct s; [congruence | reflexivity]. Qed.

Lemma string_of_list_byte_empty (b : bytes) :
  string_of_list_byte b = "" <-> b = [].
Proof. destruct b; cbn; split; congruence. Qed.

Section DriverFacts.
Variables certificate rsaKey restConfig apiserver : Type.
Variable w : World certificate rsaKey restConfig apiserver.

(** C8. With an empty [-subject] the program logs the missing-parameter
    message and exits with status 1 straight after setting the log flags:
    no file is read, no key or certificate generated, no client built and
    no cycle run. *)
Theorem main_requires_subject (fl : flagvals) (fuel : nat) :
  deref fl Flag.subject = "" ->
  main w fl fuel =
    ([EvLogSetFlags 0;
      EvFatal (Msg "Missing required -subject parameter" [])],
     Exited 1).
Proof. intros H. unfold main. rewrite H. reflexivity. Qed.

(** *** Unfolding the monad *)

Lemma bind_value {A B} (t : list event) (a : A) (k : A -> prog B) :
  bind (t, Value a) k = (t ++ fst (k a), snd (k a)).
Proof. unfold bind. now destruct (k a). Qed.

Lemma sync_value (s : syncer certificate apiserver) (n : nat) :
  sync w s n = ([EvSync n (syncer_sync w s n)], Value (syncer_sync w s n)).
Proof. reflexivity. Qed.

Lemma syncOnce_cases (s : syncer certificate apiserver) :
  syncOnce w s =
    match syncer_sync w s 0 with
    | Some err => ([EvSync 0 (Some err); fatal_sync err], Exited 1)
    | None => ([EvSync 0 None], Value tt)
    end.
Proof.
  unfold syncOnce. rewrite sync_value. cbn.
  now destruct (syncer_sync w s 0).
Qed.

Lemma poll_step (s : syncer certificate apiserver) (d : Z) (fuel n : nat) :
  poll w s d (S fuel) n =
    match syncer_sync w s n with
    | Some err => ([EvSync n (Some err); fatal_sync err], Exited 1)
    | None =>
        (EvSync n None :: EvSleep d :: fst (poll w s d fuel (S n)),
         snd (poll w s d fuel (S n)))
    end.
Proof.
  cbn [poll]. rewrite sync_value, bind_value.
  destruct (syncer_sync w s n); [reflexivity|].
  unfold time_Sleep, emit. rewrite bind_value. reflexivity.
Qed.

Lemma readCa_quiet (c k : string) :
  exists t r, readCa w c k = (t, Value r) /\
              Forall (fun e => is_cycle_event e = false) t /\
              Forall (fun e => is_store_event e = false) t.
Proof.
  unfold readCa, readPem, ReadFile, emit. rewrite !bind_value. cbn.
  destruct (ioutil_ReadFile w c) as [b1|e1]; cbn.
  - destruct (fst (pem_Decode w b1)); cbn.
    + destruct (ioutil_ReadFile w k) as [b2|e2]; cbn.
      * destruct (fst (pem_Decode w b2)); cbn;
          do 2 eexists; (split; [reflexivity|]); split; repeat constructor.
      * do 2 eexists; (split; [reflexivity|]); split; repeat constructor.
    + do 2 eexists; (split; [reflexivity|]); split; repeat constructor.
  - do 2 eexists; (split; [reflexivity|]); split; repeat constructor.
Qed.

Lemma resolveNamespace_quiet (flagNs : string) :
  exists t ns, resolveNamespace w flagNs = (t, Value ns) /\ quiet t.
Proof.
  unfold resolveNamespace, ReadFile, log_Printf, emit.
  destruct (String.eqb flagNs "").
  - rewrite !bind_value. cbn.
    destruct (ioutil_ReadFile w namespaceFile); cbn;
      do 2 eexists; (split; [reflexivity|]); repeat constructor.
  - cbn. do 2 eexists. split; [reflexivity|constructor].
Qed.

Lemma main_shape (fl : flagvals) (fuel : nat) :
  exists setup,
    quiet setup /\
    (main w fl fuel = (setup, Exited 1) \/
     main w fl fuel = (setup, Value tt) \/
     (exists s,
        (deref fl Flag.interval = "" \/
         time_ParseDuration w (deref fl Flag.interval) = Ok 0%Z) /\
        main w fl fuel = (setup ++ fst (syncOnce w s), snd (syncOnce w s))) \/
     (exists s d,
        deref fl Flag.interval <> "" /\
        time_ParseDuration w (deref fl Flag.interval) = Ok d /\
        d <> 0%Z /\
        main w fl fuel =
          (setup ++ fst (poll w s d fuel 0), snd (poll w s d fuel 0)))).
Proof.
  unfold main, log_SetFlags, log_Print, log_Printf, fmt_Print, emit.
  rewrite bind_value.
  destruct (String.length (deref fl Flag.subject) =? 0)%nat.
  { eexists. split; [|left; reflexivity]. repeat constructor. }
  assert (Hint :
    (exists err,
       (if negb (String.length (deref fl Flag.interval) =? 0)%nat
        then match time_ParseDuration w (deref fl Flag.interval) with
             | Ok d => ret d
             | Err err =>
                 log_Fatalf
                   "Parameter -interval was not a valid duration: %v"
                   [AErr err]
             end
        else ret 0%Z) =
       ([EvFatal (Msg "Parameter -interval was not a valid duration: %v"
                      [AErr err])], Exited 1)) \/
    (exists d,
       (if negb (String.length (deref fl Flag.interval) =? 0)%nat
        then match time_ParseDuration w (deref fl Flag.interval) with
             | Ok d => ret d
             | Err err =>
                 log_Fatalf
                   "Parameter -interval was not a valid duration: %v"
                   [AErr err]
             end
        else ret 0%Z) = ([], Value d) /\
       ((d = 0%Z /\
         (deref fl Flag.interval = "" \/
          time_ParseDuration w (deref fl Flag.interval) = Ok 0%Z)) \/
        (d <> 0%Z /\ deref fl Flag.interval <> "" /\
         time_ParseDuration w (deref fl Flag.interval) = Ok d)))).
  { destruct (deref fl Flag.interval) as [|c rest] eqn:Ei; cbn.
    - right. exists 0%Z. split; [reflexivity|]. left. auto.
    - destruct (time_ParseDuration w (String c rest)) as [d|err].
      + right. exists d. split; [reflexivity|].
        destruct (Z.eq_dec d 0) as [->|Hd]; [left; auto|right].
        repeat split; [exact Hd|discriminate].
      + left. now exists err. }
  destruct Hint as [[err ->]|[d [-> Hd]]].
  { eexists. split; [|left; reflexivity]. repeat constructor. }
  rewrite bind_value.
  destruct (String.length (deref fl Flag.k8sName) =? 0)%nat.
  - rewrite bind_value.
    destruct (readCa_quiet (deref fl Flag.cacrt) (deref fl Flag.cakey))
      as [t [r [-> [Hq _]]]].
    rewrite bind_value.
    destruct r as [signer|err].
    + rewrite bind_value.
      destruct (rsa_GenerateKey w 2048).
      * rewrite bind_value.
        destruct (generateSignedCert w _ _ _ _ _ _) as [[cert key]|err].
        -- eexists. split; [|right; left; reflexivity].
           cbn. repeat constructor. apply Forall_app. split; [exact Hq|].
           repeat constructor.
        -- eexists. split; [|left; reflexivity].
           cbn. repeat constructor. apply Forall_app. split; [exact Hq|].
           repeat constructor.
      * eexists. split; [|left; reflexivity].
        cbn. repeat constructor. apply Forall_app. split; [exact Hq|].
        repeat constructor.
    + eexists. split; [|left; reflexivity].
      cbn. repeat constructor. apply Forall_app. split; [exact Hq|].
      repeat constructor.
  - rewrite bind_value.
    destruct (config_GetConfig w) as [cfg|err].
    2:{ eexists. split; [|left; reflexivity]. repeat constructor. }
    rewrite bind_value.
    destruct (kubernetes_NewForConfig w cfg) as [cs|err].
    2:{ eexists. split; [|left; reflexivity]. repeat constructor. }
    destruct (resolveNamespace_quiet (deref fl Flag.k8sNs))
      as [t [ns [-> Hq]]].
    rewrite !bind_value.
    destruct Hd as [[-> Hd]|[Hd [Hi Hp]]].
    + cbn [Z.eqb].
      exists ([EvLogSetFlags 0; EvGetConfig; EvNewForConfig] ++ t ++
              [syncing_line fl ns]).
      split.
      * repeat (apply Forall_app; split); try exact Hq; repeat constructor.
      * right. right. left. eexists. split; [exact Hd|].
        cbn. rewrite <- !app_assoc. reflexivity.
    + apply Z.eqb_neq in Hd as Hd'. rewrite Hd'. rewrite ?bind_value.
      exists ([EvLogSetFlags 0; EvGetConfig; EvNewForConfig] ++ t ++
              [syncing_line fl ns] ++
              [EvLog (Msg "Monitoring every %v" [ADuration d]);
               EvLogSetFlags LstdFlags]).
      split.
      * repeat (apply Forall_app; split); try exact Hq; repeat constructor.
      * right. right. right. do 2 eexists. repeat split; try eassumption.
        cbn. rewrite <- !app_assoc. reflexivity.
Qed.

(** *** The polling loop *)

Lemma sync_count_cons_zero (e : event) (t : list event) :
  sync_count (e :: t) = 0 -> is_sync e = false /\ sync_count t = 0.
Proof.
  unfold sync_count. cbn. destruct (is_sync e); [discriminate|auto].
Qed.

Lemma sync_count_app (t u : list event) :
  sync_count (t ++ u) = sync_count t + sync_count u.
Proof. unfold sync_count. now rewrite filter_app, length_app. Qed.

Lemma quiet_sync_count (t : list event) :
  quiet t -> sync_count t = 0.
Proof.
  induction 1 as [|e t He _ IH]; [reflexivity|].
  unfold sync_count in *. cbn. destruct e; try discriminate; exact IH.
Qed.

Lemma quiet_prefix (setup t pre post : list event) (e : event) :
  quiet setup -> is_cycle_event e = true ->
  setup ++ t = pre ++ e :: post ->
  exists pre', pre = setup ++ pre' /\ t = pre' ++ e :: post.
Proof.
  intros Hq He. revert pre. induction Hq as [|x setup Hx _ IH]; intros pre H.
  - now exists pre.
  - destruct pre as [|y pre]; cbn in H; injection H as -> H.
    + congruence.
    + destruct (IH _ H) as [pre' [-> ->]]. now exists pre'.
Qed.

Section Loop.
Variable s : syncer certificate apiserver.
Variable d : Z.

Lemma poll_starts_with_a_cycle (fuel n : nat) (mid post : list event)
  (b : nat) (r : option error) :
  fst (poll w s d fuel n) = mid ++ EvSync b r :: post ->
  sync_count mid = 0 -> mid = [] /\ b = n.
Proof.
  destruct fuel as [|fuel].
  - cbn. intros H. now destruct mid.
  - rewrite poll_step. intros H Hm.
    destruct mid as [|x mid].
    + destruct (syncer_sync w s n); cbn in H; injection H as -> _; auto.
    + apply sync_count_cons_zero in Hm as [Hx _].
      destruct (syncer_sync w s n); cbn in H; injection H as <- _;
        discriminate.
Qed.

Lemma poll_failed_cycle_is_last (fuel n : nat) (pre post : list event)
  (m : nat) (err : error) :
  fst (poll w s d fuel n) = pre ++ EvSync m (Some err) :: post ->
  post = [fatal_sync err] /\ snd (poll w s d fuel n) = Exited 1.
Proof.
  revert n pre. induction fuel as [|fuel IH]; intros n pre.
  - cbn. intros H. now destruct pre.
  - rewrite poll_step. destruct (syncer_sync w s n) as [e|]; cbn.
    + destruct pre as [|x [|y [|z pre]]]; cbn; intros H;
        inversion H; subst; auto.
    + destruct pre as [|x [|y pre]]; cbn; intros H;
        inversion H; subst. eauto.
Qed.

Lemma poll_success_then_sleep (fuel n : nat) (pre post : list event)
  (m : nat) :
  fst (poll w s d fuel n) = pre ++ EvSync m None :: post ->
  exists post', post = EvSleep d :: post'.
Proof.
  revert n pre. induction fuel as [|fuel IH]; intros n pre.
  - cbn. intros H. now destruct pre.
  - rewrite poll_step. destruct (syncer_sync w s n) as [e|]; cbn.
    + destruct pre as [|x [|y [|z pre]]]; cbn; intros H;
        inversion H.
    + destruct pre as [|x [|y pre]]; cbn; intros H;
        inversion H; subst; eauto.
Qed.

Lemma poll_consecutive_cycles (fuel n : nat) (pre mid post : list event)
  (a b : nat) (r r' : option error) :
  fst (poll w s d fuel n) = pre ++ EvSync a r :: mid ++ EvSync b r' :: post ->
  sync_count mid = 0 ->
  r = None /\ b = S a /\ mid = [EvSleep d].
Proof.
  revert n pre. induction fuel as [|fuel IH]; intros n pre.
  - cbn. intros H. now destruct pre.
  - rewrite poll_step. destruct (syncer_sync w s n) as [e|]; cbn.
    + destruct pre as [|x [|y [|z pre]]]; cbn; intros H;
        inversion H; subst.
      match goal with
      | E : [_] = mid ++ _ |- _ => destruct mid as [|u [|v mid]]; inversion E
      end.
    + destruct pre as [|x [|y pre]]; cbn; intros H Hm;
        inversion H; subst.
      * destruct mid as [|u mid]; [discriminate|].
        match goal with E : _ :: _ = _ :: _ |- _ => inversion E; subst end.
        apply sync_count_cons_zero in Hm as [_ Hm].
        match goal with
        | E : fst (poll _ _ _ _ _) = _ |- _ =>
            destruct (poll_starts_with_a_cycle _ _ _ _ _ _ E Hm) as [-> ->]
        end.
        auto.
      * eauto.
Qed.

Lemma poll_all_ok (fuel n : nat) :
  (forall i, n <= i < n + fuel -> syncer_sync w s i = None) ->
  poll w s d fuel n = (flat_map (paced d) (seq n fuel), Unfinished).
Proof.
  revert n. induction fuel as [|fuel IH]; intros n H; [reflexivity|].
  rewrite poll_step, (H n) by lia.
  rewrite IH by (intros i Hi; apply H; lia). reflexivity.
Qed.

Lemma poll_first_failure (fuel n k : nat) (err : error) :
  (forall i, n <= i < n + k -> syncer_sync w s i = None) ->
  syncer_sync w s (n + k) = Some err ->
  k < fuel ->
  poll w s d fuel n =
    (flat_map (paced d) (seq n k) ++
       [EvSync (n + k) (Some err); fatal_sync err],
     Exited 1).
Proof.
  revert n k. induction fuel as [|fuel IH]; intros n k Hok Hko Hlt; [lia|].
  rewrite poll_step. destruct k as [|k].
  - rewrite Nat.add_0_r in *. now rewrite Hko.
  - rewrite (Hok n) by lia.
    rewrite (IH (S n) k) by
      (try (intros i Hi; apply Hok); try lia;
       now replace (S n + k) with (n + S k) by lia).
    cbn. now replace (S (n + k)) with (n + S k) by lia.
Qed.

Lemma sync_count_paced (n k : nat) :
  sync_count (flat_map (paced d) (seq n k)) = k.
Proof.
  revert n. induction k as [|k IH]; intros n; [reflexivity|].
  cbn [seq flat_map]. rewrite sync_count_app, IH. reflexivity.
Qed.
End Loop.

(** *** Runs that reach the store *)

Lemma main_connected (fl : flagvals) (fuel : nat) (d : Z)
  (cfg : restConfig) (cs : Clientset apiserver) :
  deref fl Flag.subject <> "" ->
  interval_is w fl d ->
  deref fl Flag.k8sName <> "" ->
  config_GetConfig w = Ok cfg ->
  kubernetes_NewForConfig w cfg = Ok cs ->
  exists t ns s,
    resolveNamespace w (deref fl Flag.k8sNs) = (t, Value ns) /\
    quiet t /\
    id s = {| name := deref fl Flag.k8sName; namespace := ns |} /\
    main w fl fuel =
      (([EvLogSetFlags 0; EvGetConfig; EvNewForConfig] ++ t ++
        [syncing_line fl ns]) ++
       fst (if (d =? 0)%Z then syncOnce w s
            else (log_Printf "Monitoring every %v" [ADuration d] ;;
                  log_SetFlags LstdFlags ;;
                  poll w s d fuel 0)),
       snd (if (d =? 0)%Z then syncOnce w s
            else (log_Printf "Monitoring every %v" [ADuration d] ;;
                  log_SetFlags LstdFlags ;;
                  poll w s d fuel 0))).
Proof.
  intros Hs Hi Hn Hc Hk.
  unfold main, log_SetFlags at 1, log_Printf at 1, emit.
  rewrite bind_value, (length_zero_false _ Hs).
  assert (E :
    (if negb (String.length (deref fl Flag.interval) =? 0)%nat
     then match time_ParseDuration w (deref fl Flag.interval) with
          | Ok d => ret d
          | Err err =>
              log_Fatalf "Parameter -interval was not a valid duration: %v"
                         [AErr err]
          end
     else ret 0%Z) = ([], Value d) :> prog Z).
  { destruct Hi as [[Hi ->]|[Hi Hp]].
    - now rewrite Hi.
    - now rewrite (length_zero_false _ Hi), Hp. }
  rewrite E, bind_value, (length_zero_false _ Hn), bind_value, Hc.
  rewrite bind_value, Hk.
  destruct (resolveNamespace_quiet (deref fl Flag.k8sNs)) as [t [ns [E' Hq]]].
  rewrite E', !bind_value.
  exists t, ns. eexists. split; [reflexivity|]. split; [exact Hq|].
  split; cycle 1.
  - unfold syncing_line. cbn [fst snd app]. rewrite <- !app_assoc.
    reflexivity.
  - reflexivity.
Qed.

Lemma connected_setup_quiet (fl : flagvals) (t : list event) (ns : string) :
  quiet t ->
  quiet ([EvLogSetFlags 0; EvGetConfig; EvNewForConfig] ++ t ++
         [syncing_line fl ns]).
Proof.
  intros Hq. repeat (apply Forall_app; split); try exact Hq;
    repeat constructor.
Qed.

Lemma main_polling (fl : flagvals) (fuel : nat) (d : Z)
  (cfg : restConfig) (cs : Clientset apiserver) :
  deref fl Flag.subject <> "" ->
  deref fl Flag.k8sName <> "" ->
  deref fl Flag.interval <> "" ->
  time_ParseDuration w (deref fl Flag.interval) = Ok d ->
  d <> 0%Z ->
  config_GetConfig w = Ok cfg ->
  kubernetes_NewForConfig w cfg = Ok cs ->
  exists setup s,
    quiet setup /\
    main w fl fuel =
      (setup ++ fst (poll w s d fuel 0), snd (poll w s d fuel 0)).
Proof.
  intros Hs Hn Hi Hp Hd Hc Hk.
  destruct (main_connected fl fuel d cfg cs Hs (or_intror (conj Hi Hp))
              Hn Hc Hk) as [t [ns [s [_ [Hq [_ ->]]]]]].
  apply Z.eqb_neq in Hd. rewrite Hd.
  unfold log_Printf, log_SetFlags, emit. rewrite !bind_value.
  exists (([EvLogSetFlags 0; EvGetConfig; EvNewForConfig] ++ t ++
           [syncing_line fl ns]) ++
          [EvLog (Msg "Monitoring every %v" [ADuration d]);
           EvLogSetFlags LstdFlags]), s.
  split.
  - apply Forall_app. split; [now apply connected_setup_quiet|].
    repeat constructor.
  - cbn [fst snd app]. rewrite <- !app_assoc. reflexivity.
Qed.

Lemma main_one_shot (fl : flagvals) (fuel : nat)
  (cfg : restConfig) (cs : Clientset apiserver) :
  deref fl Flag.subject <> "" ->
  deref fl Flag.k8sName <> "" ->
  deref fl Flag.interval = "" ->
  config_GetConfig w = Ok cfg ->
  kubernetes_NewForConfig w cfg = Ok cs ->
  exists setup s,
    quiet setup /\
    main w fl fuel = (setup ++ fst (syncOnce w s), snd (syncOnce w s)).
Proof.
  intros Hs Hn Hi Hc Hk.
  destruct (main_connected fl fuel 0 cfg cs Hs
              (or_introl (conj Hi eq_refl)) Hn Hc Hk)
    as [t [ns [s [_ [Hq [_ ->]]]]]].
  eexists. exists s. split; [|reflexivity]. now apply connected_setup_quiet.
Qed.

(** C9. The namespace is the flag when the flag is non-empty (the file is
    not read); with an empty flag it is the raw contents of the
    service-account namespace file when that file is readable and not
    empty, and "default" when the file is empty or cannot be read (the
    latter is logged).  A run that reaches the store announces that
    namespace as the one it syncs to. *)
Theorem resolveNamespace_cases (flagNs : string) :
  (flagNs <> "" -> resolveNamespace w flagNs = ([], Value flagNs)) /\
  (flagNs = "" ->
   forall b, ioutil_ReadFile w namespaceFile = Ok b -> b <> [] ->
     resolveNamespace w flagNs =
       ([EvReadFile namespaceFile], Value (string_of_list_byte b))) /\
  (flagNs = "" ->
   ioutil_ReadFile w namespaceFile = Ok [] ->
     resolveNamespace w flagNs =
       ([EvReadFile namespaceFile], Value "default")) /\
  (flagNs = "" ->
   forall err, ioutil_ReadFile w namespaceFile = Err err ->
     resolveNamespace w flagNs =
       ([EvReadFile namespaceFile;
         EvLog (Msg "Unable to read %s, using namespace 'default'"
                    [AString namespaceFile])],
        Value "default")) /\
  (forall fl fuel d cfg cs,
     flagNs = deref fl Flag.k8sNs ->
     deref fl Flag.subject <> "" ->
     interval_is w fl d ->
     deref fl Flag.k8sName <> "" ->
     config_GetConfig w = Ok cfg ->
     kubernetes_NewForConfig w cfg = Ok cs ->
     exists t ns,
       resolveNamespace w flagNs = (t, Value ns) /\
       In (syncing_line fl ns) (fst (main w fl fuel))).
Proof.
  assert (Hmain : forall fl fuel d cfg cs,
     flagNs = deref fl Flag.k8sNs ->
     deref fl Flag.subject <> "" ->
     interval_is w fl d ->
     deref fl Flag.k8sName <> "" ->
     config_GetConfig w = Ok cfg ->
     kubernetes_NewForConfig w cfg = Ok cs ->
     exists t ns,
       resolveNamespace w flagNs = (t, Value ns) /\
       In (syncing_line fl ns) (fst (main w fl fuel))).
  { intros fl fuel d cfg cs -> Hs Hi Hn Hc Hk.
    destruct (main_connected fl fuel d cfg cs Hs Hi Hn Hc Hk)
      as [t [ns [s [E [_ [_ ->]]]]]].
    exists t, ns. split; [exact E|].
    cbn [fst]. rewrite !in_app_iff. left. right. right. now left. }
  unfold resolveNamespace, ReadFile. repeat split; [| | | |exact Hmain].
  - intros H. apply String.eqb_neq in H. rewrite H. cbn. now rewrite H.
  - intros -> b Hb Hne. cbn. rewrite Hb. cbn.
    destruct (String.eqb_spec (string_of_list_byte b) "") as [E|E];
      [|reflexivity].
    now apply string_of_list_byte_empty in E.
  - intros -> Hb. cbn. now rewrite Hb.
  - intros -> err Hb. cbn. now rewrite Hb.
Qed.

(** C4. A failed cycle is the last one: whatever the mode, what follows a
    failed cycle in a run is the fatal log line and nothing else, and the
    process has exited with status 1.  And the loop does stop there: in
    polling mode, when cycle [k] is the first to fail, every run observed
    for more than [k] iterations has exited after exactly [k + 1]
    cycles. *)
Theorem failed_cycle_ends_the_loop (fl : flagvals) (fuel : nat) :
  (forall pre n err post,
     fst (main w fl fuel) = pre ++ EvSync n (Some err) :: post ->
     post = [fatal_sync err] /\
     sync_count post = 0 /\
     snd (main w fl fuel) = Exited 1) /\
  (forall d cfg cs k err,
     deref fl Flag.subject <> "" ->
     deref fl Flag.k8sName <> "" ->
     deref fl Flag.interval <> "" ->
     time_ParseDuration w (deref fl Flag.interval) = Ok d ->
     d <> 0%Z ->
     config_GetConfig w = Ok cfg ->
     kubernetes_NewForConfig w cfg = Ok cs ->
     (forall s i, i < k -> syncer_sync w s i = None) ->
     (forall s, syncer_sync w s k = Some err) ->
     k < fuel ->
     snd (main w fl fuel) = Exited 1 /\
     sync_count (fst (main w fl fuel)) = S k /\
     exists setup,
       sync_count setup = 0 /\
       fst (main w fl fuel) =
         setup ++ flat_map (fun i => [EvSync i None; EvSleep d]) (seq 0 k)
               ++ [EvSync k (Some err); fatal_sync err]).
Proof.
  split.
  - intros pre n err post H.
    assert (G : post = [fatal_sync err] /\ snd (main w fl fuel) = Exited 1).
    { destruct (main_shape fl fuel)
        as [setup [Hq [E|[E|[[s [_ E]]|[s [d [_ [_ [_ E]]]]]]]]]];
        rewrite E in H |- *; cbn [fst snd] in H |- *.
      - rewrite <- (app_nil_r setup) in H.
        apply quiet_prefix in H as [pre' [_ H]]; [|exact Hq|reflexivity].
        now destruct pre'.
      - rewrite <- (app_nil_r setup) in H.
        apply quiet_prefix in H as [pre' [_ H]]; [|exact Hq|reflexivity].
        now destruct pre'.
      - apply quiet_prefix in H as [pre' [_ H]]; [|exact Hq|reflexivity].
        rewrite syncOnce_cases in H |- *.
        destruct (syncer_sync w s 0) as [e|]; cbn in H |- *.
        + destruct pre' as [|x [|y [|z pre']]]; inversion H; subst; auto.
        + destruct pre' as [|x [|y pre']]; inversion H.
      - apply quiet_prefix in H as [pre' [_ H]]; [|exact Hq|reflexivity].
        now apply poll_failed_cycle_is_last in H. }
    destruct G as [-> G]. auto.
  - intros d cfg cs k err Hs Hn Hi Hp Hd Hc Hk Hok Hko Hlt.
    destruct (main_polling fl fuel d cfg cs Hs Hn Hi Hp Hd Hc Hk)
      as [setup [s [Hq ->]]].
    rewrite (poll_first_failure s d fuel 0 k err)
      by (auto; intros i Hi'; apply Hok; lia).
    cbn [fst snd Nat.add]. split; [reflexivity|]. split.
    + rewrite !sync_count_app, sync_count_paced, (quiet_sync_count _ Hq).
      cbn. lia.
    + exists setup. split; [now apply quiet_sync_count|reflexivity].
Qed.

(** C5. Cycles are strictly sequential and paced by the interval alone:
    between two consecutive cycles of a run there is exactly one sleep, of
    the duration parsed from [-interval], and nothing else; the earlier
    cycle succeeded and the later one is the next in number; on a clock
    where a sleep lasts what it was asked to, the later cycle starts
    exactly that duration after the earlier one ended.  And in polling
    mode every successful cycle is directly followed by that sleep. *)
Theorem polling_cycles_are_paced_by_the_interval
  (fl : flagvals) (fuel : nat) :
  (forall pre a r mid b r' post,
     fst (main w fl fuel) =
       pre ++ EvSync a r :: mid ++ EvSync b r' :: post ->
     sync_count mid = 0 ->
     exists d,
       deref fl Flag.interval <> "" /\
       time_ParseDuration w (deref fl Flag.interval) = Ok d /\
       d <> 0%Z /\
       r = None /\ b = S a /\ mid = [EvSleep d] /\
       forall cost, elapsed cost mid = d) /\
  (forall d pre a post,
     deref fl Flag.interval <> "" ->
     time_ParseDuration w (deref fl Flag.interval) = Ok d ->
     d <> 0%Z ->
     fst (main w fl fuel) = pre ++ EvSync a None :: post ->
     exists post', post = EvSleep d :: post').
Proof.
  split.
  - intros pre a r mid b r' post H Hm.
    destruct (main_shape fl fuel)
      as [setup [Hq [E|[E|[[s [_ E]]|[s [d [Hi [Hp [Hd E]]]]]]]]]];
      rewrite E in H; cbn [fst snd] in H.
    + rewrite <- (app_nil_r setup) in H.
      apply quiet_prefix in H as [pre' [_ H]]; [|exact Hq|reflexivity].
      now destruct pre'.
    + rewrite <- (app_nil_r setup) in H.
      apply quiet_prefix in H as [pre' [_ H]]; [|exact Hq|reflexivity].
      now destruct pre'.
    + apply quiet_prefix in H as [pre' [_ H]]; [|exact Hq|reflexivity].
      rewrite syncOnce_cases in H.
      destruct (syncer_sync w s 0) as [e|]; cbn in H.
      * destruct pre' as [|x [|y [|z pre']]]; inversion H; subst.
        match goal with
        | E' : [_] = mid ++ _ |- _ =>
            destruct mid as [|u [|v mid]]; inversion E'
        end.
      * destruct pre' as [|x [|y pre']]; inversion H; subst.
        match goal with
        | E' : [] = mid ++ _ |- _ => destruct mid; inversion E'
        end.
    + apply quiet_prefix in H as [pre' [_ H]]; [|exact Hq|reflexivity].
      apply poll_consecutive_cycles in H as [-> [-> ->]]; [|exact Hm].
      exists d. repeat split; auto.
      intros cost. cbn. lia.
  - intros d pre a post Hi Hp Hd H.
    destruct (main_shape fl fuel)
      as [setup [Hq [E|[E|[[s [[Hi'|Hp'] E]]|[s [d' [_ [Hp' [_ E]]]]]]]]]];
      rewrite E in H; cbn [fst snd] in H; try congruence.
    + rewrite <- (app_nil_r setup) in H.
      apply quiet_prefix in H as [pre' [_ H]]; [|exact Hq|reflexivity].
      now destruct pre'.
    + rewrite <- (app_nil_r setup) in H.
      apply quiet_prefix in H as [pre' [_ H]]; [|exact Hq|reflexivity].
      now destruct pre'.
    + apply quiet_prefix in H as [pre' [_ H]]; [|exact Hq|reflexivity].
      assert (d' = d) as -> by congruence.
      now apply poll_success_then_sleep in H.
Qed.

(** C6. Without [-interval] (and with a secret name, a subject and a
    reachable cluster) the run is one cycle and then the end of the
    process: success of the cycle is a normal return, failure is the fatal
    log line and exit status 1, whatever the number of loop iterations one
    is prepared to observe.  Whatever else happens, a run without
    [-interval] ends and runs at most one cycle.  And a run is in the
    polling loop only when [-interval] is present and parses to a non-zero
    duration. *)
Theorem one_cycle_without_interval (fl : flagvals) (fuel : nat) :
  (forall cfg cs,
     deref fl Flag.subject <> "" ->
     deref fl Flag.k8sName <> "" ->
     deref fl Flag.interval = "" ->
     config_GetConfig w = Ok cfg ->
     kubernetes_NewForConfig w cfg = Ok cs ->
     exists setup r,
       Forall (fun e => is_cycle_event e = false) setup /\
       main w fl fuel =
         (setup ++ EvSync 0 r ::
            match r with Some err => [fatal_sync err] | None => [] end,
          match r with Some _ => Exited 1 | None => Value tt end) /\
       sync_count (fst (main w fl fuel)) = 1) /\
  (deref fl Flag.interval = "" ->
   sync_count (fst (main w fl fuel)) <= 1 /\
   snd (main w fl fuel) <> Unfinished) /\
  (entered_loop (main w fl fuel) ->
   deref fl Flag.interval <> "" /\
   exists d, time_ParseDuration w (deref fl Flag.interval) = Ok d /\
             d <> 0%Z).
Proof.
  split; [|split].
  - intros cfg cs Hs Hn Hi Hc Hk.
    destruct (main_one_shot fl fuel cfg cs Hs Hn Hi Hc Hk)
      as [setup [s [Hq ->]]].
    rewrite syncOnce_cases.
    exists setup, (syncer_sync w s 0). split; [exact Hq|].
    destruct (syncer_sync w s 0) as [err|]; cbn [fst snd];
      (split; [reflexivity|]);
      rewrite sync_count_app, (quiet_sync_count _ Hq); reflexivity.
  - intros Hi.
    destruct (main_shape fl fuel)
      as [setup [Hq [E|[E|[[s [_ E]]|[s [d [Hi' _]]]]]]]];
      [| | |contradiction]; rewrite E; cbn [fst snd].
    + rewrite (quiet_sync_count _ Hq). split; [lia|discriminate].
    + rewrite (quiet_sync_count _ Hq). split; [lia|discriminate].
    + rewrite syncOnce_cases, sync_count_app, (quiet_sync_count _ Hq).
      destruct (syncer_sync w s 0); cbn; split; (lia || discriminate).
  - intros Hloop.
    destruct (main_shape fl fuel)
      as [setup [Hq [E|[E|[[s [_ E]]|[s [d [Hi [Hp [Hd E]]]]]]]]]].
    4:{ split; [exact Hi|]. now exists d. }
    all: exfalso; rewrite E in Hloop; unfold entered_loop in Hloop;
      cbn [fst snd] in Hloop.
    + destruct Hloop as [H|[[d H]|H]]; [discriminate| |].
      * rewrite Forall_forall in Hq. now apply Hq in H.
      * rewrite (quiet_sync_count _ Hq) in H. lia.
    + destruct Hloop as [H|[[d H]|H]]; [discriminate| |].
      * rewrite Forall_forall in Hq. now apply Hq in H.
      * rewrite (quiet_sync_count _ Hq) in H. lia.
    + rewrite syncOnce_cases in Hloop.
      destruct (syncer_sync w s 0) as [err|]; cbn [fst snd] in Hloop;
        destruct Hloop as [H|[[d H]|H]]; try discriminate.
      * apply in_app_or in H as [H|H].
        -- rewrite Forall_forall in Hq. now apply Hq in H.
        -- cbn in H. destruct H as [H|[H|[]]]; discriminate.
      * rewrite sync_count_app, (quiet_sync_count _ Hq) in H. cbn in H. lia.
      * apply in_app_or in H as [H|H].
        -- rewrite Forall_forall in Hq. now apply Hq in H.
        -- cbn in H. destruct H as [H|[]]; discriminate.
      * rewrite sync_count_app, (quiet_sync_count _ Hq) in H. cbn in H. lia.
Qed.

(** *** No-target mode *)

Lemma main_no_target_cases (fl : flagvals) (fuel : nat) :
  deref fl Flag.k8sName = "" ->
  (exists t, main w fl fuel = (t, Exited 1) /\
             Forall (fun e => is_store_event e = false) t) \/
  (exists cert key, main w fl fuel = (printed fl cert key, Value tt)).
Proof.
  intros Hn. unfold main, log_SetFlags, log_Print, fmt_Print, emit.
  rewrite Hn, bind_value.
  destruct (String.length (deref fl Flag.subject) =? 0)%nat.
  { left. eexists. split; [reflexivity|repeat constructor]. }
  unfold readCa, readPem, ReadFile, emit.
  destruct (negb (String.length (deref fl Flag.interval) =? 0)%nat).
  - destruct (time_ParseDuration w (deref fl Flag.interval)) as [d|err].
    2:{ left. eexists. split; [reflexivity|repeat constructor]. }
    cbn.
    destruct (ioutil_ReadFile w (deref fl Flag.cacrt)) as [b1|e1]; cbn.
    2:{ left. eexists. split; [reflexivity|repeat constructor]. }
    destruct (fst (pem_Decode w b1)); cbn.
    2:{ left. eexists. split; [reflexivity|repeat constructor]. }
    destruct (ioutil_ReadFile w (deref fl Flag.cakey)) as [b2|e2]; cbn.
    2:{ left. eexists. split; [reflexivity|repeat constructor]. }
    destruct (fst (pem_Decode w b2)); cbn.
    2:{ left. eexists. split; [reflexivity|repeat constructor]. }
    destruct (parseCertPair w _ _) as [signer|e3]; cbn.
    2:{ left. eexists. split; [reflexivity|repeat constructor]. }
    destruct (rsa_GenerateKey w 2048) as [k|e4]; cbn.
    2:{ left. eexists. split; [reflexivity|repeat constructor]. }
    destruct (generateSignedCert w _ _ _ _ _ _) as [[cert key]|e5]; cbn.
    2:{ left. eexists. split; [reflexivity|repeat constructor]. }
    right. now exists cert, key.
  - cbn.
    destruct (ioutil_ReadFile w (deref fl Flag.cacrt)) as [b1|e1]; cbn.
    2:{ left. eexists. split; [reflexivity|repeat constructor]. }
    destruct (fst (pem_Decode w b1)); cbn.
    2:{ left. eexists. split; [reflexivity|repeat constructor]. }
    destruct (ioutil_ReadFile w (deref fl Flag.cakey)) as [b2|e2]; cbn.
    2:{ left. eexists. split; [reflexivity|repeat constructor]. }
    destruct (fst (pem_Decode w b2)); cbn.
    2:{ left. eexists. split; [reflexivity|repeat constructor]. }
    destruct (parseCertPair w _ _) as [signer|e3]; cbn.
    2:{ left. eexists. split; [reflexivity|repeat constructor]. }
    destruct (rsa_GenerateKey w 2048) as [k|e4]; cbn.
    2:{ left. eexists. split; [reflexivity|repeat constructor]. }
    destruct (generateSignedCert w _ _ _ _ _ _) as [[cert key]|e5]; cbn.
    2:{ left. eexists. split; [reflexivity|repeat constructor]. }
    right. now exists cert, key.
Qed.

Lemma readCa_ok (c k : string) (b1 b2 : bytes) (blk1 blk2 : pemBlock)
  (signer : certificate) :
  ioutil_ReadFile w c = Ok b1 ->
  fst (pem_Decode w b1) = Some blk1 ->
  ioutil_ReadFile w k = Ok b2 ->
  fst (pem_Decode w b2) = Some blk2 ->
  parseCertPair w (Bytes blk1) (Bytes blk2) = Ok signer ->
  readCa w c k = ([EvReadFile c; EvReadFile k], Value (Ok signer)).
Proof.
  intros H1 D1 H2 D2 Hp. unfold readCa.
  rewrite (readPem_decoded _ _ _ _ w _ _ _ H1 D1), bind_value.
  cbn beta iota.
  rewrite (readPem_decoded _ _ _ _ w _ _ _ H2 D2), bind_value.
  cbn beta iota. now rewrite Hp.
Qed.

(** C1. With no secret name the run never touches the store: no client is
    built and no cycle run, whatever else happens.  It always ends, either
    on a fatal error or by returning after exactly this: the CA pair is
    read, a 2048-bit key and a certificate for the subject are generated,
    and the certificate and key are printed on standard output.  And it
    does end that way whenever the subject is present, the interval (if
    any) parses, the CA files decode and parse, and generation succeeds. *)
Theorem no_target_prints_without_the_store (fl : flagvals) (fuel : nat) :
  deref fl Flag.k8sName = "" ->
  Forall (fun e => is_store_event e = false) (fst (main w fl fuel)) /\
  (snd (main w fl fuel) = Exited 1 \/
   exists cert key, main w fl fuel = (printed fl cert key, Value tt)) /\
  (forall d b1 blk1 b2 blk2 signer k cert key,
     deref fl Flag.subject <> "" ->
     interval_is w fl d ->
     ioutil_ReadFile w (deref fl Flag.cacrt) = Ok b1 ->
     fst (pem_Decode w b1) = Some blk1 ->
     ioutil_ReadFile w (deref fl Flag.cakey) = Ok b2 ->
     fst (pem_Decode w b2) = Some blk2 ->
     parseCertPair w (Bytes blk1) (Bytes blk2) = Ok signer ->
     rsa_GenerateKey w 2048 = Ok k ->
     generateSignedCert w (deref fl Flag.subject)
       (splitOption (deref fl Flag.ip)) (splitOption (deref fl Flag.dns))
       (expire fl) k signer = Ok (cert, key) ->
     main w fl fuel = (printed fl cert key, Value tt)).
Proof.
  intros Hn. split; [|split].
  - destruct (main_no_target_cases fl fuel Hn) as [[t [-> H]]|[c [k ->]]];
      [exact H|repeat constructor].
  - destruct (main_no_target_cases fl fuel Hn) as [[t [-> H]]|[c [k ->]]];
      [now left|right; now exists c, k].
  - intros d b1 blk1 b2 blk2 signer k cert key Hs Hi H1 D1 H2 D2 Hp Hk Hg.
    unfold main, log_SetFlags, log_Print, fmt_Print, emit.
    rewrite Hn, bind_value, (length_zero_false _ Hs).
    assert (E :
      (if negb (String.length (deref fl Flag.interval) =? 0)%nat
       then match time_ParseDuration w (deref fl Flag.interval) with
            | Ok d => ret d
            | Err err =>
                log_Fatalf
                  "Parameter -interval was not a valid duration: %v"
                  [AErr err]
            end
       else ret 0%Z) = ([], Value d) :> prog Z).
    { destruct Hi as [[Hi ->]|[Hi Hd]].
      - now rewrite Hi.
      - now rewrite (length_zero_false _ Hi), Hd. }
    rewrite E, (readCa_ok _ _ _ _ _ _ _ H1 D1 H2 D2 Hp). cbn.
    rewrite Hk. cbn. rewrite Hg. reflexivity.
Qed.

(** ** More of the driver *)

(** *** Loading the CA pair *)

Lemma readPem_trace (file : string) :
  exists r, readPem w file = ([EvReadFile file], Value r).
Proof.
  destruct (ioutil_ReadFile w file) as [b|err] eqn:H.
  - destruct (fst (pem_Decode w b)) as [blk|] eqn:D.
    + eexists. exact (readPem_decoded _ _ _ _ w file b blk H D).
    + eexists. exact (readPem_undecodable _ _ _ _ w file b H D).
  - eexists. exact (readPem_unreadable _ _ _ _ w file err H).
Qed.

(** X1. When the certificate file cannot be read or holds no PEM block,
    [readCa] hands back the error of that [readPem] as it is and stops
    there: the key file is not read. *)
Theorem readCa_cert_error_skips_the_key (c k : string) (err : error) :
  snd (readPem w c) = Value (Err err) ->
  readCa w c k = ([EvReadFile c], Value (Err err)).
Proof.
  destruct (readPem_trace c) as [r E]. rewrite E. cbn [snd].
  intros H. injection H as ->.
  unfold readCa. rewrite E, bind_value. reflexivity.
Qed.

(** X2. When the certificate file decodes and the key file does not,
    [readCa] has read both files, certificate first, and hands back the
    error of the key's [readPem] as it is. *)
Theorem readCa_key_error_follows_the_cert
  (c k : string) (b1 : bytes) (blk1 : pemBlock) (err : error) :
  ioutil_ReadFile w c = Ok b1 ->
  fst (pem_Decode w b1) = Some blk1 ->
  snd (readPem w k) = Value (Err err) ->
  readCa w c k = ([EvReadFile c; EvReadFile k], Value (Err err)).
Proof.
  intros H1 D1. destruct (readPem_trace k) as [r E]. rewrite E. cbn [snd].
  intros H. injection H as ->.
  unfold readCa.
  rewrite (readPem_decoded _ _ _ _ w _ _ _ H1 D1), bind_value.
  cbn beta iota. rewrite E, bind_value. reflexivity.
Qed.

(** X3. When both files decode, [readCa] gives [parseCertPair] the decoded
    payloads, not the file contents, certificate first and key second, and
    returns its answer unchanged, error included. *)
Theorem readCa_parses_the_decoded_payloads
  (c k : string) (b1 b2 : bytes) (blk1 blk2 : pemBlock) :
  ioutil_ReadFile w c = Ok b1 ->
  fst (pem_Decode w b1) = Some blk1 ->
  ioutil_ReadFile w k = Ok b2 ->
  fst (pem_Decode w b2) = Some blk2 ->
  readCa w c k =
    ([EvReadFile c; EvReadFile k],
     Value (parseCertPair w (Bytes blk1) (Bytes blk2))).
Proof.
  intros H1 D1 H2 D2. unfold readCa.
  rewrite (readPem_decoded _ _ _ _ w _ _ _ H1 D1), bind_value.
  cbn beta iota.
  rewrite (readPem_decoded _ _ _ _ w _ _ _ H2 D2), bind_value.
  reflexivity.
Qed.

(** *** Start-up failures *)

Lemma interval_resolves (fl : flagvals) (d : Z) :
  interval_is w fl d ->
  (if negb (String.length (deref fl Flag.interval) =? 0)%nat
   then match time_ParseDuration w (deref fl Flag.interval) with
        | Ok d => ret d
        | Err err =>
            log_Fatalf "Parameter -interval was not a valid duration: %v"
                       [AErr err]
        end
   else ret 0%Z) = ([], Value d) :> prog Z.
Proof.
  intros [[Hi ->]|[Hi Hp]].
  - now rewrite Hi.
  - now rewrite (length_zero_false _ Hi), Hp.
Qed.

(** X5. An [-interval] that does not parse is fatal at start-up, with or
    without a secret name: the run is the log set-up, the fatal line naming
    the parse error and exit status 1; no file is read and nothing reaches
    the cluster. *)
Theorem main_rejects_an_invalid_interval
  (fl : flagvals) (fuel : nat) (err : error) :
  deref fl Flag.subject <> "" ->
  deref fl Flag.interval <> "" ->
  time_ParseDuration w (deref fl Flag.interval) = Err err ->
  main w fl fuel =
    ([EvLogSetFlags 0;
      EvFatal (Msg "Parameter -interval was not a valid duration: %v"
                   [AErr err])],
     Exited 1).
Proof.
  intros Hs Hi Hp. unfold main, log_SetFlags, emit.
  rewrite bind_value, (length_zero_false _ Hs), (length_zero_false _ Hi), Hp.
  reflexivity.
Qed.

(** X7. With a secret name, a cluster configuration that cannot be obtained
    is fatal before a client is built, and a client that cannot be built is
    fatal before the namespace is resolved: in both cases no file is read
    and no cycle runs. *)
Theorem main_needs_the_cluster (fl : flagvals) (fuel : nat) (d : Z) :
  deref fl Flag.subject <> "" ->
  interval_is w fl d ->
  deref fl Flag.k8sName <> "" ->
  (forall err,
     config_GetConfig w = Err err ->
     main w fl fuel =
       ([EvLogSetFlags 0; EvGetConfig;
         EvFatal (Msg "Unable to get Kubernetes config: %v" [AErr err])],
        Exited 1)) /\
  (forall cfg err,
     config_GetConfig w = Ok cfg ->
     kubernetes_NewForConfig w cfg = Err err ->
     main w fl fuel =
       ([EvLogSetFlags 0; EvGetConfig; EvNewForConfig;
         EvFatal (Msg "Unable to initialize Kubernetes client: %v"
                      [AErr err])],
        Exited 1)).
Proof.
  intros Hs Hi Hn. split.
  - intros err Hc. unfold main, log_SetFlags, emit.
    rewrite bind_value, (length_zero_false _ Hs), (interval_resolves _ _ Hi).
    rewrite bind_value, (length_zero_false _ Hn), bind_value, Hc.
    reflexivity.
  - intros cfg err Hc Hk. unfold main, log_SetFlags, emit.
    rewrite bind_value, (length_zero_false _ Hs), (interval_resolves _ _ Hi).
    rewrite bind_value, (length_zero_false _ Hn), bind_value, Hc.
    rewrite bind_value, Hk. reflexivity.
Qed.

(** X6. An [-interval] that parses to zero (such as [0s]) is treated as no
    interval at all: the run is one cycle and then the end of the process,
    with no sleep. *)
Theorem zero_interval_is_one_shot
  (fl : flagvals) (fuel : nat) (cfg : restConfig) (cs : Clientset apiserver) :
  deref fl Flag.subject <> "" ->
  deref fl Flag.k8sName <> "" ->
  deref fl Flag.interval <> "" ->
  time_ParseDuration w (deref fl Flag.interval) = Ok 0%Z ->
  config_GetConfig w = Ok cfg ->
  kubernetes_NewForConfig w cfg = Ok cs ->
  exists setup r,
    quiet setup /\
    main w fl fuel =
      (setup ++ EvSync 0 r ::
         match r with Some err => [fatal_sync err] | None => [] end,
       match r with Some _ => Exited 1 | None => Value tt end).
Proof.
  intros Hs Hn Hi Hp Hc Hk.
  destruct (main_connected fl fuel 0 cfg cs Hs (or_intror (conj Hi Hp))
              Hn Hc Hk) as [t [ns [s [_ [Hq [_ ->]]]]]].
  cbn [Z.eqb]. rewrite syncOnce_cases.
  exists ([EvLogSetFlags 0; EvGetConfig; EvNewForConfig] ++ t ++
          [syncing_line fl ns]), (syncer_sync w s 0).
  split; [now apply connected_setup_quiet|].
  now destruct (syncer_sync w s 0).
Qed.

Lemma interval_cases (fl : flagvals) :
  (exists err,
     (if negb (String.length (deref fl Flag.interval) =? 0)%nat
      then match time_ParseDuration w (deref fl Flag.interval) with
           | Ok d => ret d
           | Err err =>
               log_Fatalf "Parameter -interval was not a valid duration: %v"
                          [AErr err]
           end
      else ret 0%Z) =
     ([EvFatal (Msg "Parameter -interval was not a valid duration: %v"
                    [AErr err])], Exited 1) :> prog Z) \/
  (exists d,
     (if negb (String.length (deref fl Flag.interval) =? 0)%nat
      then match time_ParseDuration w (deref fl Flag.interval) with
           | Ok d => ret d
           | Err err =>
               log_Fatalf "Parameter -interval was not a valid duration: %v"
                          [AErr err]
           end
      else ret 0%Z) = ([], Value d) :> prog Z /\
     ((d = 0%Z /\
       (deref fl Flag.interval = "" \/
        time_ParseDuration w (deref fl Flag.interval) = Ok 0%Z)) \/
      (d <> 0%Z /\ deref fl Flag.interval <> "" /\
       time_ParseDuration w (deref fl Flag.interval) = Ok d))).
Proof.
  destruct (deref fl Flag.interval) as [|c rest] eqn:Ei; cbn.
  - right. exists 0%Z. split; [reflexivity|]. left. auto.
  - destruct (time_ParseDuration w (String c rest)) as [d|err].
    + right. exists d. split; [reflexivity|].
      destruct (Z.eq_dec d 0) as [->|Hd]; [left; auto|right].
      repeat split; [exact Hd|discriminate].
    + left. now exists err.
Qed.

(** *** Failures without a secret name *)

Ltac failed_after k :=
  intros _; exists k; eexists;
  split; [lia|];
  split; [intros; reflexivity|];
  let H := fresh in intros ? H; cbn in H; intuition discriminate.

(** X8. Without a secret name, a run that ends in failure has done the
    first steps of the successful run (at most the six that come before the
    printing), logged one fatal line and printed nothing on standard
    output. *)
Theorem no_target_failure_prints_nothing (fl : flagvals) (fuel : nat) :
  deref fl Flag.k8sName = "" ->
  snd (main w fl fuel) = Exited 1 ->
  exists k msg,
    k <= 6 /\
    (forall cert key,
       fst (main w fl fuel) =
         firstn k (printed fl cert key) ++ [EvFatal msg]) /\
    (forall ops, ~ In (EvPrint ops) (fst (main w fl fuel))).
Proof.
  intros Hn. unfold main, log_SetFlags, log_Print, fmt_Print, emit.
  rewrite Hn, bind_value.
  destruct (String.length (deref fl Flag.subject) =? 0)%nat;
    [failed_after 1|].
  destruct (interval_cases fl) as [[err ->]|[d [-> _]]];
    [failed_after 1|].
  unfold readCa, readPem, ReadFile, emit. cbn.
  destruct (ioutil_ReadFile w (deref fl Flag.cacrt)) as [b1|e1]; cbn;
    [|failed_after 3].
  destruct (fst (pem_Decode w b1)); cbn; [|failed_after 3].
  destruct (ioutil_ReadFile w (deref fl Flag.cakey)) as [b2|e2]; cbn;
    [|failed_after 4].
  destruct (fst (pem_Decode w b2)); cbn; [|failed_after 4].
  destruct (parseCertPair w _ _) as [signer|e3]; cbn; [|failed_after 4].
  destruct (rsa_GenerateKey w 2048) as [k|e4]; cbn; [|failed_after 5].
  destruct (generateSignedCert w _ _ _ _ _ _) as [[cert key]|e5]; cbn;
    [|failed_after 6].
  discriminate.
Qed.

(** *** Runs with a secret name *)

Lemma resolveNamespace_own (fl : flagvals) :
  exists t ns,
    resolveNamespace w (deref fl Flag.k8sNs) = (t, Value ns) /\
    Forall (own_work fl) t.
Proof.
  unfold resolveNamespace, ReadFile, log_Printf, emit.
  destruct (String.eqb_spec (deref fl Flag.k8sNs) "") as [E|E].
  - rewrite !bind_value. cbn.
    destruct (ioutil_ReadFile w namespaceFile); cbn;
      do 2 eexists; (split; [reflexivity|]);
      repeat constructor; try discriminate; auto.
  - cbn. do 2 eexists. split; [reflexivity|constructor].
Qed.

Lemma syncOnce_own (fl : flagvals) (s : syncer certificate apiserver) :
  Forall (own_work fl) (fst (syncOnce w s)).
Proof.
  rewrite syncOnce_cases. destruct (syncer_sync w s 0); cbn;
    repeat constructor; discriminate.
Qed.

Lemma poll_own (fl : flagvals) (s : syncer certificate apiserver) (d : Z)
  (fuel n : nat) :
  Forall (own_work fl) (fst (poll w s d fuel n)).
Proof.
  revert n. induction fuel as [|fuel IH]; intros n; [constructor|].
  rewrite poll_step. destruct (syncer_sync w s n); cbn.
  - repeat constructor; discriminate.
  - constructor; [split; [reflexivity|discriminate]|].
    constructor; [split; [reflexivity|discriminate]|]. apply IH.
Qed.

Lemma poll_outcome (s : syncer certificate apiserver) (d : Z)
  (fuel n : nat) :
  snd (poll w s d fuel n) = Exited 1 \/ snd (poll w s d fuel n) = Unfinished.
Proof.
  revert n. induction fuel as [|fuel IH]; intros n; [now right|].
  rewrite poll_step. destruct (syncer_sync w s n); cbn;
    [now left|apply IH].
Qed.

Lemma main_target_cases (fl : flagvals) (fuel : nat) :
  deref fl Flag.k8sName <> "" ->
  exists setup,
    Forall (own_work fl) setup /\
    (main w fl fuel = (setup, Exited 1) \/
     (exists s,
        (deref fl Flag.interval = "" \/
         time_ParseDuration w (deref fl Flag.interval) = Ok 0%Z) /\
        main w fl fuel = (setup ++ fst (syncOnce w s), snd (syncOnce w s))) \/
     (exists s d,
        deref fl Flag.interval <> "" /\
        time_ParseDuration w (deref fl Flag.interval) = Ok d /\
        d <> 0%Z /\
        main w fl fuel =
          (setup ++ fst (poll w s d fuel 0), snd (poll w s d fuel 0)))).
Proof.
  intros Hn. unfold main, log_SetFlags, log_Printf, emit.
  rewrite bind_value.
  destruct (String.length (deref fl Flag.subject) =? 0)%nat.
  { eexists. split; [|left; reflexivity]. repeat constructor; discriminate. }
  destruct (interval_cases fl) as [[err ->]|[d [-> Hd]]].
  { eexists. split; [|left; reflexivity]. repeat constructor; discriminate. }
  rewrite bind_value, (length_zero_false _ Hn), bind_value.
  destruct (config_GetConfig w) as [cfg|err].
  2:{ eexists. split; [|left; reflexivity]. repeat constructor; discriminate. }
  rewrite bind_value.
  destruct (kubernetes_NewForConfig w cfg) as [cs|err].
  2:{ eexists. split; [|left; reflexivity]. repeat constructor; discriminate. }
  destruct (resolveNamespace_own fl) as [t [ns [-> Hq]]].
  rewrite !bind_value.
  assert (Hsetup : Forall (own_work fl)
                     ([EvLogSetFlags 0; EvGetConfig; EvNewForConfig] ++ t ++
                      [syncing_line fl ns])).
  { repeat (apply Forall_app; split); try exact Hq;
      repeat constructor; discriminate. }
  destruct Hd as [[-> Hd]|[Hd [Hi Hp]]].
  - cbn [Z.eqb].
    exists ([EvLogSetFlags 0; EvGetConfig; EvNewForConfig] ++ t ++
            [syncing_line fl ns]).
    split; [exact Hsetup|].
    right. left. eexists. split; [exact Hd|].
    cbn. rewrite <- !app_assoc. reflexivity.
  - apply Z.eqb_neq in Hd as Hd'. rewrite Hd'. rewrite ?bind_value.
    exists (([EvLogSetFlags 0; EvGetConfig; EvNewForConfig] ++ t ++
             [syncing_line fl ns]) ++
            [EvLog (Msg "Monitoring every %v" [ADuration d]);
             EvLogSetFlags LstdFlags]).
    split.
    + apply Forall_app. split; [exact Hsetup|].
      repeat constructor; discriminate.
    + right. right. do 2 eexists. repeat split; try eassumption.
      cbn. rewrite <- !app_assoc. reflexivity.
Qed.

(** X9. With a secret name, [main] itself never reads the CA files, never
    generates a key or a certificate and never prints on standard output:
    the only file it reads is the service-account namespace file, and with a
    non-empty [-namespace] it reads no file at all.  Loading the CA is left
    to the cycles. *)
Theorem target_run_leaves_the_ca_to_the_cycles
  (fl : flagvals) (fuel : nat) :
  deref fl Flag.k8sName <> "" ->
  Forall (fun e => left_to_the_cycles e = false) (fst (main w fl fuel)) /\
  (deref fl Flag.k8sNs <> "" ->
   Forall (fun e => is_read e = false) (fst (main w fl fuel))).
Proof.
  intros Hn.
  assert (H : Forall (own_work fl) (fst (main w fl fuel))).
  { destruct (main_target_cases fl fuel Hn)
      as [setup [Hq [E|[[s [_ E]]|[s [d [_ [_ [_ E]]]]]]]]];
      rewrite E; cbn [fst]; [exact Hq| |];
      apply Forall_app; split; try exact Hq.
    - apply syncOnce_own.
    - apply poll_own. }
  split.
  - eapply Forall_impl; [|exact H]. now intros e [He _].
  - intros Hns. eapply Forall_impl; [|exact H].
    intros e [_ He]. destruct (is_read e); [|reflexivity].
    now specialize (He eq_refl).
Qed.

(** X10. The polling loop has no normal way out: with a secret name and an
    [-interval] that parses to a non-zero duration, a run never returns from
    [main]; it has either exited with status 1 or is still going. *)
Theorem polling_run_never_returns (fl : flagvals) (fuel : nat) (d : Z) :
  deref fl Flag.k8sName <> "" ->
  deref fl Flag.interval <> "" ->
  time_ParseDuration w (deref fl Flag.interval) = Ok d ->
  d <> 0%Z ->
  snd (main w fl fuel) = Exited 1 \/ snd (main w fl fuel) = Unfinished.
Proof.
  intros Hn Hi Hp Hd.
  destruct (main_target_cases fl fuel Hn)
    as [setup [_ [E|[[s [[Hi'|Hp'] E]]|[s [d' [_ [_ [_ E]]]]]]]]];
    try congruence; rewrite E; cbn [snd]; [now left|].
  apply poll_outcome.
Qed.

(** X11. As long as cycles succeed the loop goes on: in polling mode, when
    the first [fuel] cycles succeed, the run observed for [fuel] iterations
    is the start-up (client, namespace, the two log lines, timestamps
    switched on), then [fuel] cycles each followed by its sleep, and it has
    not ended. *)
Theorem polling_goes_on_while_cycles_succeed
  (fl : flagvals) (fuel : nat) (d : Z)
  (cfg : restConfig) (cs : Clientset apiserver) :
  deref fl Flag.subject <> "" ->
  deref fl Flag.k8sName <> "" ->
  deref fl Flag.interval <> "" ->
  time_ParseDuration w (deref fl Flag.interval) = Ok d ->
  d <> 0%Z ->
  config_GetConfig w = Ok cfg ->
  kubernetes_NewForConfig w cfg = Ok cs ->
  (forall s i, i < fuel -> syncer_sync w s i = None) ->
  exists t ns,
    resolveNamespace w (deref fl Flag.k8sNs) = (t, Value ns) /\
    main w fl fuel =
      ([EvLogSetFlags 0; EvGetConfig; EvNewForConfig] ++ t ++
       [syncing_line fl ns;
        EvLog (Msg "Monitoring every %v" [ADuration d]);
        EvLogSetFlags LstdFlags] ++
       flat_map (fun i => [EvSync i None; EvSleep d]) (seq 0 fuel),
       Unfinished) /\
    sync_count (fst (main w fl fuel)) = fuel.
Proof.
  intros Hs Hn Hi Hp Hd Hc Hk Hok.
  destruct (main_connected fl fuel d cfg cs Hs (or_intror (conj Hi Hp))
              Hn Hc Hk) as [t [ns [s [E [Hq [_ ->]]]]]].
  apply Z.eqb_neq in Hd. rewrite Hd.
  unfold log_Printf, log_SetFlags, emit. rewrite !bind_value.
  rewrite (poll_all_ok s d fuel 0) by (intros i Hi'; apply Hok; lia).
  exists t, ns. split; [exact E|]. cbn [fst snd]. split.
  - cbn [app]. rewrite <- !app_assoc. reflexivity.
  - rewrite !sync_count_app, (quiet_sync_count _ Hq), sync_count_paced.
    reflexivity.
Qed.
End DriverFacts.

(** ** The theorems at work on the concrete world *)

Lemma readPem_on_ca_file :
  exists r : result bytes,
    readPem Demo.world "./ca.pem" = ([EvReadFile "./ca.pem"], Value r) /\
    r = Ok (list_byte_of_string "CERT").
Proof.
  destruct (readPem_error_iff_unreadable_or_no_block _ _ _ _
              Demo.world "./ca.pem") as [r [E [_ H]]].
  exists r. split; [exact E|].
  exact (H (list_byte_of_string "-CERT")
           {| Type_ := "CERTIFICATE"; Headers := [];
              Bytes := list_byte_of_string "CERT" |}
           eq_refl eq_refl).
Defined.

Lemma empty_subject_is_fatal :
  main Demo.world Demo.no_subject 7 =
    ([EvLogSetFlags 0;
      EvFatal (Msg "Missing required -subject parameter" [])],
     Exited 1).
Proof. apply main_requires_subject. reflexivity. Defined.

Lemma namespace_from_service_account :
  resolveNamespace Demo.world "" =
    ([EvReadFile namespaceFile], Value "prod").
Proof.
  apply (proj1 (proj2 (resolveNamespace_cases _ _ _ _ Demo.world ""))
           eq_refl (list_byte_of_string "prod")).
  - reflexivity.
  - discriminate.
Defined.

Lemma no_target_run :
  main Demo.world Demo.no_target 3 =
    (printed Demo.no_target "CERT for svc.example.com" "KEY", Value tt).
Proof.
  apply (proj2 (proj2 (no_target_prints_without_the_store _ _ _ _
                         Demo.world Demo.no_target 3 eq_refl))
           3600000000000%Z
           (list_byte_of_string "-CERT")
           {| Type_ := "CERTIFICATE"; Headers := [];
              Bytes := list_byte_of_string "CERT" |}
           (list_byte_of_string "-KEY")
           {| Type_ := "CERTIFICATE"; Headers := [];
              Bytes := list_byte_of_string "KEY" |}
           (list_byte_of_string "CERT", list_byte_of_string "KEY")
           2048%Z);
    try reflexivity.
  - discriminate.
  - right. split; [discriminate|reflexivity].
Defined.

Lemma one_shot_run :
  exists setup r,
    Forall (fun e => is_cycle_event e = false) setup /\
    main Demo.world Demo.one_shot 4 =
      (setup ++ EvSync 0 r ::
         match r with Some err => [fatal_sync err] | None => [] end,
       match r with Some _ => Exited 1 | None => Value tt end) /\
    sync_count (fst (main Demo.world Demo.one_shot 4)) = 1.
Proof.
  apply (proj1 (one_cycle_without_interval _ _ _ _
                  Demo.world Demo.one_shot 4) tt Demo.store);
    try reflexivity; discriminate.
Defined.

Lemma third_cycle_fails_and_ends_the_run :
  snd (main Demo.world Demo.hourly 5) = Exited 1 /\
  sync_count (fst (main Demo.world Demo.hourly 5)) = 3 /\
  exists setup,
    sync_count setup = 0 /\
    fst (main Demo.world Demo.hourly 5) =
      setup ++
      flat_map (fun i => [EvSync i None; EvSleep 3600000000000]) (seq 0 2) ++
      [EvSync 2 (Some (ExtError "store unavailable"));
       fatal_sync (ExtError "store unavailable")].
Proof.
  apply (proj2 (failed_cycle_ends_the_loop _ _ _ _
                  Demo.world Demo.hourly 5)
           3600000000000%Z tt Demo.store 2 (ExtError "store unavailable"));
    try reflexivity; try discriminate; try lia.
  intros s i Hi.
  change (syncer_sync Demo.world s i)
    with (if (i <? 2)%nat then @None error
          else Some (ExtError "store unavailable")).
  apply Nat.ltb_lt in Hi. now rewrite Hi.
Defined.

Lemma two_hourly_cycles :
  exists d,
    time_ParseDuration Demo.world (deref Demo.hourly Flag.interval) = Ok d /\
    d <> 0%Z /\
    [EvSleep 3600000000000] = [EvSleep d] /\
    forall cost, elapsed cost [EvSleep 3600000000000] = d.
Proof.
  destruct (proj1 (polling_cycles_are_paced_by_the_interval _ _ _ _
                     Demo.world Demo.hourly 2)
              [EvLogSetFlags 0; EvGetConfig; EvNewForConfig;
               syncing_line Demo.hourly "kube";
               EvLog (Msg "Monitoring every %v" [ADuration 3600000000000]);
               EvLogSetFlags LstdFlags]
              0 None [EvSleep 3600000000000] 1 None
              [EvSleep 3600000000000] eq_refl eq_refl)
    as [d [_ [Hp [Hd [_ [_ [Hm Hc]]]]]]].
  exists d. auto.
Defined.

Lemma readPem_decode_error_does_not_name_the_file :
  exists e,
    readPem Demo.world "./garbage.pem" =
      ([EvReadFile "./garbage.pem"], Value (Err e)) /\
    forall pr, is_substring "./garbage.pem" (Error pr e) = false.
Proof.
  eexists. split; [reflexivity|]. intros pr. reflexivity.
Defined.

Lemma readPem_error_on_missing_key :
  exists a cause,
    ioutil_ReadFile Demo.world "./missing-key.pem" = Err cause /\
    forall pr,
      Error pr Demo.missing_key_error =
        ("unable to read " ++ operand_text pr a ++ ": " ++ Error pr cause)
        %string.
Proof.
  destruct (readPem_errors_carry_operation_and_material _ _ _ _
              Demo.world "./missing-key.pem" Demo.missing_key_error eq_refl)
    as [[a [cause [H1 [_ H3]]]]|[b [H1 _]]].
  - exists a, cause. split; [exact H1|exact H3].
  - discriminate H1.
Defined.

(** ** Writing a secret and reading it back *)

(** X4. [setSecret] writes under the namespace and name the secret itself
    carries, and [getSecret] reads under the namespace and name of the
    identifier.  So on a store that returns what was last written under a
    namespace and name, a secret whose write succeeded, by create or by
    update, is what [getSecret] returns for the identifier made of the
    secret's own name and namespace. *)
Theorem setSecret_then_getSecret
  (apiserver : Type) (a : k8sAdapter apiserver) (s : secret) (update : bool)
  (st st' : apiserver) (calls : list storeCall) :
  (forall s0 st0 r st1,
     serveCreate (clientset a) (Namespace s0) s0 st0 = (Ok r, st1) ->
     serveGet (clientset a) (Namespace s0) (Name s0) st1 = (Ok s0, st1)) ->
  (forall s0 st0 r st1,
     serveUpdate (clientset a) (Namespace s0) s0 st0 = (Ok r, st1) ->
     serveGet (clientset a) (Namespace s0) (Name s0) st1 = (Ok s0, st1)) ->
  setSecret a s update st = (calls, None, st') ->
  getSecret a {| name := Name s; namespace := Namespace s |} st' =
    ([CallGet (Namespace s) (Name s)], Ok s, st').
Proof.
  intros Hcreate Hupdate. unfold setSecret, getSecret, kbind, kret.
  destruct update; cbn.
  - destruct (serveUpdate (clientset a) (Namespace s) s st) as [r st1] eqn:E.
    destruct r as [r|err]; cbn; intros H; inversion H; subst.
    now rewrite (Hupdate _ _ _ _ E).
  - destruct (serveCreate (clientset a) (Namespace s) s st) as [r st1] eqn:E.
    destruct r as [r|err]; cbn; intros H; inversion H; subst.
    now rewrite (Hcreate _ _ _ _ E).
Qed.

Lemma demo_store_finds_own (s : secret) (st : Demo.apiserver) :
  find (Demo.same_secret (Namespace s) (Name s)) (s :: st) = Some s.
Proof. cbn. unfold Demo.same_secret. now rewrite !String.eqb_refl. Qed.

Lemma demo_store_reads_its_creates
  (s0 : secret) (st0 : Demo.apiserver) (r : secret) (st1 : Demo.apiserver) :
  serveCreate Demo.store (Namespace s0) s0 st0 = (Ok r, st1) ->
  serveGet Demo.store (Namespace s0) (Name s0) st1 = (Ok s0, st1).
Proof.
  cbn [serveCreate serveGet Demo.store].
  destruct (find _ st0); intros H; inversion H; subst.
  now rewrite demo_store_finds_own.
Qed.

Lemma demo_store_reads_its_updates
  (s0 : secret) (st0 : Demo.apiserver) (r : secret) (st1 : Demo.apiserver) :
  serveUpdate Demo.store (Namespace s0) s0 st0 = (Ok r, st1) ->
  serveGet Demo.store (Namespace s0) (Name s0) st1 = (Ok s0, st1).
Proof.
  cbn [serveUpdate serveGet Demo.store].
  destruct (find _ st0); intros H; inversion H; subst.
  now rewrite demo_store_finds_own.
Qed.

(** ** More runs on the concrete world *)

Lemma created_secret_is_read_back :
  getSecret (Build_k8sAdapter Demo.store)
            {| name := "tls"; namespace := "prod" |} [Demo.a_secret] =
    ([CallGet "prod" "tls"], Ok Demo.a_secret, [Demo.a_secret]).
Proof.
  apply (setSecret_then_getSecret _ (Build_k8sAdapter Demo.store)
           Demo.a_secret false [] [Demo.a_secret]
           [CallCreate "prod" Demo.a_secret]).
  - apply demo_store_reads_its_creates.
  - apply demo_store_reads_its_updates.
  - reflexivity.
Defined.

Lemma readCa_on_missing_cert :
  readCa Demo.world "./nope.pem" "./ca-key.pem" =
    ([EvReadFile "./nope.pem"],
     Value (Err (Errorf "unable to read %v: %w"
       [AStrPtr Flag.cacrt;
        AErr (ExtError "open ./nope.pem: no such file or directory")]))).
Proof. apply readCa_cert_error_skips_the_key. reflexivity. Defined.

Lemma readCa_on_garbage_key :
  readCa Demo.world "./ca.pem" "./garbage.pem" =
    ([EvReadFile "./ca.pem"; EvReadFile "./garbage.pem"],
     Value (Err (Errorf "unable to decode: %v"
                        [ABytes (list_byte_of_string "junk")]))).
Proof.
  apply (readCa_key_error_follows_the_cert _ _ _ _ Demo.world
           "./ca.pem" "./garbage.pem" (list_byte_of_string "-CERT")
           {| Type_ := "CERTIFICATE"; Headers := [];
              Bytes := list_byte_of_string "CERT" |});
    reflexivity.
Defined.

Lemma readCa_on_the_ca_pair :
  readCa Demo.world "./ca.pem" "./ca-key.pem" =
    ([EvReadFile "./ca.pem"; EvReadFile "./ca-key.pem"],
     Value (Ok (list_byte_of_string "CERT", list_byte_of_string "KEY"))).
Proof.
  apply (readCa_parses_the_decoded_payloads _ _ _ _ Demo.world
           "./ca.pem" "./ca-key.pem"
           (list_byte_of_string "-CERT") (list_byte_of_string "-KEY")
           {| Type_ := "CERTIFICATE"; Headers := [];
              Bytes := list_byte_of_string "CERT" |}
           {| Type_ := "CERTIFICATE"; Headers := [];
              Bytes := list_byte_of_string "KEY" |});
    reflexivity.
Defined.

Lemma unparsable_interval_is_fatal :
  main Demo.world Demo.bad_interval 3 =
    ([EvLogSetFlags 0;
      EvFatal (Msg "Parameter -interval was not a valid duration: %v"
                   [AErr (ExtError "time: invalid duration")])],
     Exited 1).
Proof.
  apply main_rejects_an_invalid_interval;
    [discriminate | discriminate | reflexivity].
Defined.

Lemma zero_seconds_run :
  exists setup r,
    Forall (fun e => is_cycle_event e = false) setup /\
    main Demo.world Demo.zero_interval 4 =
      (setup ++ EvSync 0 r ::
         match r with Some err => [fatal_sync err] | None => [] end,
       match r with Some _ => Exited 1 | None => Value tt end).
Proof.
  apply (zero_interval_is_one_shot _ _ _ _ Demo.world Demo.zero_interval 4
           tt Demo.store);
    try reflexivity; discriminate.
Defined.

Lemma unreachable_cluster_is_fatal :
  main Demo.no_kubeconfig Demo.one_shot 2 =
    ([EvLogSetFlags 0; EvGetConfig;
      EvFatal (Msg "Unable to get Kubernetes config: %v"
                   [AErr (ExtError "no kubeconfig")])],
     Exited 1) /\
  main Demo.no_client Demo.one_shot 2 =
    ([EvLogSetFlags 0; EvGetConfig; EvNewForConfig;
      EvFatal (Msg "Unable to initialize Kubernetes client: %v"
                   [AErr (ExtError "bad host")])],
     Exited 1).
Proof.
  split.
  - apply (proj1 (main_needs_the_cluster _ _ _ _ Demo.no_kubeconfig
                    Demo.one_shot 2 0%Z
                    ltac:(discriminate)
                    (or_introl (conj eq_refl eq_refl))
                    ltac:(discriminate))).
    reflexivity.
  - apply (proj2 (main_needs_the_cluster _ _ _ _ Demo.no_client
                    Demo.one_shot 2 0%Z
                    ltac:(discriminate)
                    (or_introl (conj eq_refl eq_refl))
                    ltac:(discriminate)) tt);
      reflexivity.
Defined.

Lemma garbage_key_run_prints_nothing :
  exists k msg,
    k <= 6 /\
    (forall cert key,
       fst (main Demo.world Demo.bad_key 1) =
         firstn k (printed Demo.bad_key cert key) ++ [EvFatal msg]) /\
    (forall ops, ~ In (EvPrint ops) (fst (main Demo.world Demo.bad_key 1))).
Proof.
  apply no_target_failure_prints_nothing; reflexivity.
Defined.

Lemma hourly_run_leaves_the_ca_alone :
  Forall (fun e => left_to_the_cycles e = false)
         (fst (main Demo.world Demo.hourly 3)) /\
  (deref Demo.hourly Flag.k8sNs <> "" ->
   Forall (fun e => is_read e = false) (fst (main Demo.world Demo.hourly 3))).
Proof.
  apply target_run_leaves_the_ca_to_the_cycles. discriminate.
Defined.

Lemma hourly_run_does_not_return :
  snd (main Demo.world Demo.hourly 5) = Exited 1 \/
  snd (main Demo.world Demo.hourly 5) = Unfinished.
Proof.
  apply (polling_run_never_returns _ _ _ _ Demo.world Demo.hourly 5
           3600000000000%Z);
    try discriminate; reflexivity.
Defined.

Lemma two_good_hours :
  exists t ns,
    resolveNamespace Demo.world (deref Demo.hourly Flag.k8sNs) =
      (t, Value ns) /\
    main Demo.world Demo.hourly 2 =
      ([EvLogSetFlags 0; EvGetConfig; EvNewForConfig] ++ t ++
       [syncing_line Demo.hourly ns;
        EvLog (Msg "Monitoring every %v" [ADuration 3600000000000]);
        EvLogSetFlags LstdFlags] ++
       flat_map (fun i => [EvSync i None; EvSleep 3600000000000]) (seq 0 2),
       Unfinished) /\
    sync_count (fst (main Demo.world Demo.hourly 2)) = 2.
Proof.
  apply (polling_goes_on_while_cycles_succeed _ _ _ _ Demo.world
           Demo.hourly 2 3600000000000%Z tt Demo.store);
    try discriminate; try reflexivity.
  intros s i Hi.
  change (syncer_sync Demo.world s i)
    with (if (i <? 2)%nat then @None error
          else Some (ExtError "store unavailable")).
  apply Nat.ltb_lt in Hi. now rewrite Hi.
Defined.
